(** * Gaussian and same-family mixture distributions

    A shallow embedding of [pytorch/probability/distributions_.py]: the
    class [Normal_] (a Gaussian parameterised by [loc] and [scale]) and the
    class [MixtureSameFamily] (a categorical mixture over a batch of
    component distributions), together with the part of the tensor engine
    they are written against.

    Scalars are real numbers: every statement below is a statement of exact
    real arithmetic.  A tensor is a shape together with a function from
    multi-indices to scalars; an operation of the engine that raises in
    Python returns [Err] here.  Division and logarithm are the total
    functions of the real-number library; they are the engine's functions
    wherever the engine returns a finite number, in particular on positive
    scales. *)

From Stdlib Require Import Reals Lra Lia List Arith Bool.
Import ListNotations.

(** ** Exceptions and the error monad *)

(** The Python exceptions the code can raise.  [ValueError] is what argument
    validation raises (the specification's [InvalidArgument]); a failed
    broadcast, permute, expand or repeat raises [RuntimeError] (the
    specification's [ShapeMismatch]); indexing an empty size raises
    [IndexError]. *)
Inductive error : Set := RuntimeError | ValueError | IndexError.

Inductive result (A : Type) : Type :=
| Ok (a : A)
| Err (e : error).

Arguments Ok {A} a.
Arguments Err {A} e.

Definition bind {A B : Type} (m : result A) (k : A -> result B) : result B :=
  match m with
  | Ok a => k a
  | Err e => Err e
  end.

Notation "x <- m ;; k" := (bind m (fun x => k))
  (at level 61, m at next level, right associativity).
Notation "' p <- m ;; k" := (bind m (fun p => k))
  (at level 61, p pattern, m at next level, right associativity).

(** [torch.Size]: a tuple of dimensions, outermost axis first. *)
Definition Size := list nat.

Definition Size_eqb (a b : Size) : bool :=
  if list_eq_dec Nat.eq_dec a b then true else false.

(** ** The tensor engine *)

Module Torch.

Record Tensor : Type := mkTensor {
  shape : Size;
  data : list nat -> R
}.

Definition dim (t : Tensor) : nat := length (shape t).

(** A multi-index addresses an element of a tensor of size [s] when it has
    one coordinate per axis, each below the axis' dimension. *)
Definition in_range (s : Size) (idx : list nat) : Prop :=
  Forall2 lt idx s.

(** All multi-indices of a size, in row-major order. *)
Fixpoint indices (s : Size) : list (list nat) :=
  match s with
  | [] => [[]]
  | d :: s' => flat_map (fun i => map (cons i) (indices s')) (seq 0 d)
  end.

(** [t.all()] of a boolean tensor obtained elementwise from [t]. *)
Definition all (p : R -> bool) (t : Tensor) : bool :=
  forallb (fun idx => p (data t idx)) (indices (shape t)).

(** *** Broadcasting

    Sizes are aligned on their trailing axes, so the two recursions below
    run over the reversed sizes (innermost axis first). *)

Definition broadcast_dim (x y : nat) : result nat :=
  if x =? y then Ok x
  else if x =? 1 then Ok y
  else if y =? 1 then Ok x
  else Err RuntimeError.

Fixpoint broadcast_rev (a b : list nat) : result (list nat) :=
  match a, b with
  | [], _ => Ok b
  | _, [] => Ok a
  | x :: a', y :: b' =>
      r <- broadcast_rev a' b';;
      d <- broadcast_dim x y;;
      Ok (d :: r)
  end.

Definition broadcast_shapes (a b : Size) : result Size :=
  r <- broadcast_rev (rev a) (rev b);; Ok (rev r).

(** The element of an operand of size [s] that a position [idx] of the
    broadcast result reads: leading axes the operand does not have are
    dropped, and an axis of dimension 1 is read at 0. *)
Fixpoint bidx_rev (s idx : list nat) : list nat :=
  match s, idx with
  | d :: s', i :: idx' => (if d =? 1 then 0 else i)%nat :: bidx_rev s' idx'
  | _, _ => []
  end.

Definition bidx (s : Size) (idx : list nat) : list nat :=
  rev (bidx_rev (rev s) (rev idx)).

(** An elementwise binary operation on two tensors. *)
Definition binop (f : R -> R -> R) (x y : Tensor) : result Tensor :=
  s <- broadcast_shapes (shape x) (shape y);;
  Ok (mkTensor s (fun idx =>
        f (data x (bidx (shape x) idx)) (data y (bidx (shape y) idx)))).

Definition add := binop Rplus.
Definition sub := binop Rminus.
Definition mul := binop Rmult.
Definition div := binop Rdiv.

(** An elementwise unary operation, also used for arithmetic between a
    tensor and a Python number. *)
Definition map (f : R -> R) (x : Tensor) : Tensor :=
  mkTensor (shape x) (fun idx => f (data x idx)).

Definition log := map ln.
Definition reciprocal := map Rinv.

(** [torch.tensor(x)] of a Python number, and [t.new(size).fill_(x)]. *)
Definition full (s : Size) (x : R) : Tensor := mkTensor s (fun _ => x).
Definition scalar (x : R) : Tensor := full [] x.

(** [t.expand(sizes)]: every axis of [t] either has the requested
    dimension or has dimension 1; new axes are added in front.  Sizes are
    natural numbers, so the placeholder [-1] is not a possible request. *)
Fixpoint expandable_rev (s target : list nat) : bool :=
  match s, target with
  | [], _ => true
  | _ :: _, [] => false
  | d :: s', n :: target' =>
      ((d =? n) || (d =? 1)) && expandable_rev s' target'
  end.

Definition expandable (s target : Size) : bool :=
  expandable_rev (rev s) (rev target).

Definition expand (sizes : Size) (t : Tensor) : result Tensor :=
  if expandable (shape t) sizes
  then Ok (mkTensor sizes (fun idx => data t (bidx (shape t) idx)))
  else Err RuntimeError.

(** [t.permute(dims)]: [dims] is a permutation of the axes of [t]; axis
    [i] of the result is axis [dims[i]] of [t]. *)
Fixpoint index_of (k : nat) (dims : list nat) : nat :=
  match dims with
  | [] => 0
  | d :: dims' => if d =? k then 0 else S (index_of k dims')
  end.

Definition is_permutation (dims : list nat) : bool :=
  forallb (fun k => existsb (Nat.eqb k) dims) (seq 0 (length dims)).

Definition permute (dims : list nat) (t : Tensor) : result Tensor :=
  if (length dims =? dim t) && is_permutation dims
  then Ok (mkTensor
             (List.map (fun d => nth d (shape t) 0%nat) dims)
             (fun idx => data t
                (List.map (fun k => nth (index_of k dims) idx 0%nat)
                          (seq 0 (length dims)))))
  else Err RuntimeError.

(** Indexing with [None]: [t[..., None]] is [unsqueeze (dim t) t] and
    [t[:, None, ...]] is [unsqueeze 1 t]. *)
Definition unsqueeze (k : nat) (t : Tensor) : Tensor :=
  mkTensor (firstn k (shape t) ++ 1%nat :: skipn k (shape t))
           (fun idx => data t (firstn k idx ++ skipn (S k) idx)).

(** [t.repeat(reps)]: at least one repetition count per axis; the tensor
    is tiled [reps[i]] times along axis [i]. *)
Fixpoint zip_with {A B C : Type} (f : A -> B -> C)
         (l : list A) (l' : list B) : list C :=
  match l, l' with
  | x :: l, y :: l' => f x y :: zip_with f l l'
  | _, _ => []
  end.

Definition repeat (reps : list nat) (t : Tensor) : result Tensor :=
  if length reps <? dim t then Err RuntimeError
  else
    let lead := (length reps - dim t)%nat in
    let padded := List.repeat 1%nat lead ++ shape t in
    Ok (mkTensor (zip_with Nat.mul padded reps)
                 (fun idx => data t (skipn lead (zip_with Nat.modulo idx padded)))).

(** Finite sums and the numerically stable log-sum-exp of a list: the
    maximum is subtracted before exponentiating and added back after the
    logarithm.  (Of an empty list the engine returns minus infinity; the
    statements about values are for at least one component.) *)
Definition Rsum (l : list R) : R := fold_right Rplus 0%R l.

Definition Rmax_list (l : list R) : R :=
  match l with
  | [] => 0%R
  | x :: l' => fold_left Rmax l' x
  end.

Definition logsumexp_list (l : list R) : R :=
  let m := Rmax_list l in
  (ln (Rsum (List.map (fun x => exp (x - m)) l)) + m)%R.

(** [torch.sum(t, dim=-1)].  A zero-dimensional tensor is returned as it
    is, as the engine does for [dim=-1]. *)
Definition sum_last (t : Tensor) : Tensor :=
  match shape t with
  | [] => t
  | _ :: _ =>
      mkTensor (removelast (shape t))
               (fun idx => Rsum (List.map (fun m => data t (idx ++ [m]))
                                          (seq 0 (last (shape t) 0%nat))))
  end.

(** [torch.logsumexp(t, dim=-2)], and with [dim=-1, keepdim=True]. *)
Definition logsumexp_dim2 (t : Tensor) : result Tensor :=
  match rev (shape t) with
  | c :: M :: pre =>
      Ok (mkTensor (rev pre ++ [c])
            (fun idx => logsumexp_list
               (List.map (fun m => data t (removelast idx ++ [m; last idx 0%nat]))
                         (seq 0 M))))
  | _ => Err IndexError
  end.

Definition logsumexp_last_keepdim (t : Tensor) : Tensor :=
  match shape t with
  | [] => t
  | _ :: _ =>
      mkTensor (removelast (shape t) ++ [1%nat])
               (fun idx => logsumexp_list
                  (List.map (fun m => data t (removelast idx ++ [m]))
                            (seq 0 (last (shape t) 0%nat))))
  end.

End Torch.

Import Torch.

(** The functions of the engine that the code uses and that are not given by
    real arithmetic: the error function and its inverse, and the random
    generators.  A generator is represented by the draw it returns: the
    standard-normal noise for a size, and the category indices that
    [torch.multinomial] returns for a size. *)
Class TensorEngine : Type := {
  erf : R -> R;
  erfinv : R -> R;
  normal_draw : Size -> list nat -> R;
  multinomial : Size -> list nat -> nat
}.

(** [torch.distributions.utils._standard_normal(shape, ...)]. *)
Definition _standard_normal `{TensorEngine} (shape : Size) : Tensor :=
  mkTensor shape (normal_draw shape).

(** A constructor argument of [Normal_]: a Python number or a tensor. *)
Inductive arg : Type :=
| Number (x : R)
| TensorArg (t : Tensor).

(** [torch.distributions.utils.broadcast_all] for two arguments: numbers
    become tensors, and tensors are expanded to their common size. *)
Definition broadcast_all (a b : arg) : result (Tensor * Tensor) :=
  match a, b with
  | Number x, Number y => Ok (scalar x, scalar y)
  | Number x, TensorArg u => Ok (full (shape u) x, u)
  | TensorArg t, Number y => Ok (t, full (shape t) y)
  | TensorArg t, TensorArg u =>
      s <- broadcast_shapes (shape t) (shape u);;
      t' <- expand s t;;
      u' <- expand s u;;
      Ok (t', u')
  end.

(** [torch.distributions.constraints]: the two constraints [Normal_] names. *)
Module constraints.

Inductive Constraint : Set := real | positive.

Definition check (c : Constraint) (x : R) : bool :=
  match c with
  | real => true
  | positive => if Rlt_dec 0 x then true else false
  end.

End constraints.

(** The base class [torch.distributions.Distribution], as far as the two
    classes use it. *)
Module Distribution.

(** The class attribute [Distribution._validate_args]: validation is off
    unless a constructor is passed [validate_args=True]. *)
Definition _validate_args : bool := false.

(** [Distribution.__init__]: fixes the validation flag and, when it is
    set, checks every parameter against its constraint.  The result is
    the flag the instance keeps. *)
Definition __init__ (validate_args : option bool)
           (arg_constraints : list (constraints.Constraint * Tensor))
  : result bool :=
  let flag := match validate_args with
              | Some b => b
              | None => _validate_args
              end in
  if flag && negb (forallb (fun ct => Torch.all (constraints.check (fst ct)) (snd ct))
                           arg_constraints)
  then Err ValueError
  else Ok flag.

Definition _extended_shape (batch_shape event_shape sample_shape : Size) : Size :=
  sample_shape ++ batch_shape ++ event_shape.

(** [Distribution._validate_sample]: the trailing axes of [value] are the
    event size, [value] broadcasts against batch and event size, and
    every element lies in the support.  (When the event size has more axes
    than [value], Python's slice starts from the end; the comparison fails
    there as it does here.) *)
Definition _validate_sample (batch_shape event_shape : Size)
           (support : constraints.Constraint) (value : Tensor) : result unit :=
  let event_dim_start := (dim value - length event_shape)%nat in
  if negb (Size_eqb (skipn event_dim_start (shape value)) event_shape)
  then Err ValueError
  else
    let actual_shape := shape value in
    let expected_shape := batch_shape ++ event_shape in
    if existsb (fun ij => negb (fst ij =? 1) && negb (snd ij =? 1)
                          && negb (fst ij =? snd ij))
               (combine (rev actual_shape) (rev expected_shape))
    then Err ValueError
    else if negb (Torch.all (constraints.check support) value)
         then Err ValueError
         else Ok tt.

End Distribution.

(** What [MixtureSameFamily] asks of its two collaborators. *)
Module Components.
Class t (D : Type) : Type := {
  batch_shape : D -> Size;
  event_shape : D -> Size;
  rsample : D -> Size -> result Tensor;
  log_prob : D -> Tensor -> result Tensor
}.
End Components.

Module Mixing.
Class t (M : Type) : Type := {
  sample : M -> Size -> result Tensor;
  logits : M -> Tensor
}.
End Mixing.

(** ** class Normal_ *)

Module Normal_.

Record t : Type := mk {
  loc : Tensor;
  scale : Tensor;
  _batch_shape : Size;
  _validate_args : bool
}.

(** [arg_constraints], paired with the parameters they constrain. *)
Definition arg_constraints (loc scale : Tensor)
  : list (constraints.Constraint * Tensor) :=
  [(constraints.real, loc); (constraints.positive, scale)].

Definition support : constraints.Constraint := constraints.real.

Definition batch_shape (self : t) : Size := _batch_shape self.
Definition event_shape (self : t) : Size := [].

Definition mean (self : t) : Tensor := loc self.
Definition stddev (self : t) : Tensor := scale self.
Definition variance (self : t) : Tensor := Torch.map (fun x => x ^ 2)%R (stddev self).

Definition __init__ (loc scale : arg) (validate_args : option bool) : result t :=
  '(loc', scale') <- broadcast_all loc scale;;
  let batch_shape :=
    match loc, scale with
    | Number _, Number _ => []
    | _, _ => shape loc'
    end in
  flag <- Distribution.__init__ validate_args (arg_constraints loc' scale');;
  Ok (mk loc' scale' batch_shape flag).

(** [expand]: the base constructor runs with [validate_args=False], so it
    checks nothing, and the flag of the source is copied afterwards. *)
Definition expand (self : t) (batch_shape : Size) : result t :=
  new_loc <- Torch.expand batch_shape (loc self);;
  new_scale <- Torch.expand batch_shape (scale self);;
  _ <- Distribution.__init__ (Some false) (arg_constraints new_loc new_scale);;
  Ok (mk new_loc new_scale batch_shape (_validate_args self)).

(** The guard that opens [log_prob], [cdf] and [icdf]:
    [if self._validate_args: self._validate_sample(value)]. *)
Definition validate (self : t) (value : Tensor) : result unit :=
  if _validate_args self
  then Distribution._validate_sample (batch_shape self) (event_shape self)
                                     support value
  else Ok tt.

(** [log_prob].  The fields are tensors after [broadcast_all], so
    [log_scale] is always [self.scale.log()]. *)
Definition log_prob (self : t) (value : Tensor) : result Tensor :=
  _ <- validate self value;;
  let log_scale := Torch.log (scale self) in
  d <- Torch.sub value (loc self);;
  q <- Torch.div d (scale self);;
  let sq := Torch.map (fun x => -0.5 * x ^ 2)%R q in
  r <- Torch.sub sq log_scale;;
  Ok (Torch.map (fun x => x - 0.5 * ln (2 * PI))%R r).

Definition entropy (self : t) : Tensor :=
  Torch.map (fun x => 0.5 + 0.5 * ln (2 * PI) + x)%R (Torch.log (scale self)).

Definition _natural_params (self : t) : result (Tensor * Tensor) :=
  let var := Torch.map (fun x => x ^ 2)%R (scale self) in
  eta1 <- Torch.div (loc self) var;;
  Ok (eta1, Torch.map (fun x => -0.5 * / x)%R var).

Definition _log_normalizer (x y : Tensor) : result Tensor :=
  q <- Torch.div (Torch.map (fun x => -0.25 * x ^ 2)%R x) y;;
  Torch.add q (Torch.map (fun y => 0.5 * ln (- PI / y))%R y).

Section WithEngine.
Context `{TensorEngine}.

(** [sample]: [torch.normal] of the expanded parameters, the mean plus the
    standard deviation times the noise the generator returns. *)
Definition sample (self : t) (sample_shape : Size) : result Tensor :=
  let shape := Distribution._extended_shape (batch_shape self) (event_shape self)
                                            sample_shape in
  mean <- Torch.expand shape (loc self);;
  std <- Torch.expand shape (scale self);;
  n <- Torch.mul std (_standard_normal shape);;
  Torch.add mean n.

Definition rsample (self : t) (sample_shape : Size) : result Tensor :=
  let shape := Distribution._extended_shape (batch_shape self) (event_shape self)
                                            sample_shape in
  let eps := _standard_normal shape in
  n <- Torch.mul eps (scale self);;
  Torch.add (loc self) n.

Definition cdf (self : t) (value : Tensor) : result Tensor :=
  _ <- validate self value;;
  d <- Torch.sub value (loc self);;
  z <- Torch.mul d (Torch.reciprocal (scale self));;
  Ok (Torch.map (fun x => 0.5 * (1 + erf (x / sqrt 2)))%R z).

Definition icdf (self : t) (value : Tensor) : result Tensor :=
  _ <- validate self value;;
  let e := Torch.map (fun x => erfinv (2 * x - 1))%R value in
  s <- Torch.mul (scale self) e;;
  Torch.add (loc self) (Torch.map (fun x => x * sqrt 2)%R s).

#[global] Instance components : Components.t t := {|
  Components.batch_shape := batch_shape;
  Components.event_shape := event_shape;
  Components.rsample := rsample;
  Components.log_prob := log_prob
|}.

End WithEngine.

End Normal_.

(** ** Collaborators from the framework

    [MixtureSameFamily] is handed a mixture distribution and a component
    distribution.  The two below are the framework's
    [OneHotCategorical] and [Independent]. *)

Module OneHotCategorical.

Record t : Type := mk {
  logits : Tensor;
  _batch_shape : Size;
  _num_events : nat
}.

(** The constructor keeps normalised logits:
    [logits - logits.logsumexp(dim=-1, keepdim=True)]. *)
Definition __init__ (logits : Tensor) : result t :=
  match rev (shape logits) with
  | [] => Err ValueError
  | M :: pre =>
      normalized <- Torch.sub logits (Torch.logsumexp_last_keepdim logits);;
      Ok (mk normalized (rev pre) M)
  end.

Section WithEngine.
Context `{TensorEngine}.

(** One draw: the one-hot encoding of the indices the generator
    returns, of size [sample_shape ++ batch_shape ++ [M]]. *)
Definition sample (self : t) (sample_shape : Size) : result Tensor :=
  let shape := sample_shape ++ _batch_shape self in
  let indices := multinomial shape in
  Ok (mkTensor (shape ++ [_num_events self])
        (fun idx => if last idx 0%nat =? indices (removelast idx)
                    then 1%R else 0%R)).

#[global] Instance mixing : Mixing.t t := {|
  Mixing.sample := sample;
  Mixing.logits := logits
|}.

End WithEngine.

End OneHotCategorical.

Module Independent.

Section WithBase.
Context {D : Type} `{Components.t D}.

Record t : Type := mk {
  base_dist : D;
  reinterpreted_batch_ndims : nat
}.

Definition __init__ (base : D) (n : nat) : result t :=
  if length (Components.batch_shape base) <? n
  then Err ValueError
  else Ok (mk base n).

Definition batch_shape (self : t) : Size :=
  let shape := Components.batch_shape (base_dist self) in
  firstn (length shape - reinterpreted_batch_ndims self) shape.

Definition event_shape (self : t) : Size :=
  let shape := Components.batch_shape (base_dist self) in
  skipn (length shape - reinterpreted_batch_ndims self) shape
    ++ Components.event_shape (base_dist self).

Definition rsample (self : t) (sample_shape : Size) : result Tensor :=
  Components.rsample (base_dist self) sample_shape.

Definition log_prob (self : t) (value : Tensor) : result Tensor :=
  lp <- Components.log_prob (base_dist self) value;;
  Ok (Nat.iter (reinterpreted_batch_ndims self) Torch.sum_last lp).

#[global] Instance components : Components.t t := {|
  Components.batch_shape := batch_shape;
  Components.event_shape := event_shape;
  Components.rsample := rsample;
  Components.log_prob := log_prob
|}.

End WithBase.

Arguments t D : clear implicits.

End Independent.

(** ** class MixtureSameFamily *)

Module MixtureSameFamily.

Section WithCollaborators.
Context {M D : Type} `{Mixing.t M} `{Components.t D}.

Record t : Type := mk {
  mixture_distribution : M;
  components_distribution : D;
  _batch_shape : Size;
  _event_shape : Size
}.

Definition batch_shape (self : t) : Size := _batch_shape self.
Definition event_shape (self : t) : Size := _event_shape self.

(** The constructor stores the two distributions and calls the base
    constructor without [validate_args]; the class declares no
    parameter constraints. *)
Definition __init__ (mixture_distribution : M) (components_distribution : D)
  : result t :=
  _ <- Distribution.__init__ None [];;
  Ok (mk mixture_distribution components_distribution
         (Components.batch_shape components_distribution)
         (Components.event_shape components_distribution)).

Definition sample (self : t) (sample_shape : Size) : result Tensor :=
  mixture_mask <- Mixing.sample (mixture_distribution self) sample_shape;;
  let mixture_mask :=
    if length (shape mixture_mask) =? 3
    then Torch.unsqueeze 1 mixture_mask
    else mixture_mask in
  components_samples <-
    Components.rsample (components_distribution self) sample_shape;;
  prod <- Torch.mul mixture_mask components_samples;;
  Ok (Torch.sum_last prod).

(** [self.batch_shape[-1]]. *)
Definition last_dim (s : Size) : result nat :=
  match rev s with
  | [] => Err IndexError
  | n :: _ => Ok n
  end.

Definition log_prob (self : t) (value : Tensor) : result Tensor :=
  value <- Torch.permute [2; 0; 1]%nat value;;
  n <- last_dim (batch_shape self);;
  value <- Torch.repeat [1; 1; 1; n]%nat (Torch.unsqueeze (dim value) value);;
  lp <- Components.log_prob (components_distribution self) value;;
  log_prob_components <- Torch.permute [1; 2; 3; 0]%nat lp;;
  let log_prob_mixture := Mixing.logits (mixture_distribution self) in
  let log_prob_mixture :=
    Torch.unsqueeze (dim log_prob_mixture) log_prob_mixture in
  s <- Torch.add log_prob_mixture log_prob_components;;
  Torch.logsumexp_dim2 s.

End WithCollaborators.

Arguments t M D : clear implicits.

End MixtureSameFamily.

(** ** Notions used to state the properties *)

(** The invariant [Normal_.__init__] and [Normal_.expand] establish: both
    parameters have the batch size. *)
Definition Normal_wf (d : Normal_.t) : Prop :=
  shape (Normal_.loc d) = Normal_.batch_shape d /\
  shape (Normal_.scale d) = Normal_.batch_shape d.

(** A valid Gaussian: every scale is positive. *)
Definition positive_scale (d : Normal_.t) : Prop :=
  forall idx, in_range (Normal_.batch_shape d) idx ->
              (0 < data (Normal_.scale d) idx)%R.

(** The Gaussian log-density at [x] for mean [l] and standard deviation [s]. *)
Definition normal_log_density (l s x : R) : R :=
  (-0.5 * ((x - l) / s) ^ 2 - ln s - 0.5 * ln (2 * PI))%R.

(** [torch.tensor([x0, x1, ...])]: a one-axis tensor holding a list. *)
Definition tensor1 (l : list R) : Tensor :=
  mkTensor [length l] (fun idx => nth (hd 0%nat idx) l 0%R).

(** ** Concrete instances

    An engine whose error function is replaced by the algebraic sigmoid
    [x / sqrt (1 + x^2)], which like [erf] is an increasing bijection from
    the reals onto the open interval (-1,1), with its inverse; the
    generators return zero noise and the first category. *)
Definition sigmoid (x : R) : R := (x / sqrt (1 + x ^ 2))%R.
Definition sigmoid_inv (y : R) : R := (y / sqrt (1 - y ^ 2))%R.

Definition example_engine : TensorEngine := {|
  erf := sigmoid;
  erfinv := sigmoid_inv;
  normal_draw := fun _ _ => 0%R;
  multinomial := fun _ _ => 0%nat
|}.

(** [torch.zeros(size)]. *)
Definition zeros (s : Size) : Tensor := full s 0%R.

(** The instances that [Normal_(torch.tensor([-1., 1.]), 1.0)],
    [Normal_(0.0, 1.0, validate_args=True)] and
    [Normal_(torch.zeros(size), 1.0)] construct. *)
Definition two_gaussians : Normal_.t :=
  Normal_.mk (tensor1 [-1; 1]%R) (full [2%nat] 1%R) [2%nat] false.

Definition validated_gaussian : Normal_.t :=
  Normal_.mk (scalar 0%R) (scalar 1%R) [] true.

Definition unit_gaussians (s : Size) : Normal_.t :=
  Normal_.mk (zeros s) (full s 1%R) s false.

(** [OneHotCategorical(logits=...)] for the logits [0, 0] (two outcomes of
    equal weight) and for zero logits of sizes [3], [3, 4] and [3, 2, 4]. *)
Definition equal_weights : result OneHotCategorical.t :=
  OneHotCategorical.__init__ (tensor1 [0; 0]%R).

Definition three_way : result OneHotCategorical.t :=
  OneHotCategorical.__init__ (zeros [3%nat]).

Definition four_way : result OneHotCategorical.t :=
  OneHotCategorical.__init__ (zeros [3; 4]%nat).

Definition four_way_3_2 : result OneHotCategorical.t :=
  OneHotCategorical.__init__ (zeros [3; 2; 4]%nat).

(** * Facts about the tensor engine *)

Module TorchFacts.

Lemma Forall2_rev {A B : Type} (P : A -> B -> Prop) (l : list A) (l' : list B) :
  Forall2 P l l' -> Forall2 P (rev l) (rev l').
Proof.
  induction 1 as [|x y l l' Hxy _ IH]; simpl.
  - constructor.
  - apply Forall2_app; [exact IH | repeat constructor; exact Hxy].
Qed.

(** ** Broadcasting is commutative *)

Lemma broadcast_dim_comm (x y : nat) : broadcast_dim x y = broadcast_dim y x.
Proof.
  unfold broadcast_dim.
  destruct (Nat.eqb_spec x y) as [->|Hxy].
  - rewrite Nat.eqb_refl. reflexivity.
  - destruct (Nat.eqb_spec y x) as [->|_]; [congruence|].
    destruct (Nat.eqb_spec x 1) as [->|Hx], (Nat.eqb_spec y 1) as [->|Hy];
      congruence.
Qed.

Lemma broadcast_rev_comm (a b : list nat) : broadcast_rev a b = broadcast_rev b a.
Proof.
  revert b; induction a as [|x a IH]; intros [|y b]; simpl; try reflexivity.
  rewrite IH, broadcast_dim_comm. reflexivity.
Qed.

Lemma broadcast_shapes_comm (a b : Size) : broadcast_shapes a b = broadcast_shapes b a.
Proof. unfold broadcast_shapes. rewrite broadcast_rev_comm. reflexivity. Qed.

(** ** A size that expands to another one

    [expandable s c] is the order underlying broadcasting: the result of a
    broadcast is above both operands, and broadcasting a size with one it
    expands to returns the larger one. *)

Lemma broadcast_dim_inv (x y d : nat) :
  broadcast_dim x y = Ok d ->
  ((x =? d) || (x =? 1)) = true /\ ((y =? d) || (y =? 1)) = true.
Proof.
  unfold broadcast_dim.
  destruct (Nat.eqb_spec x y) as [->|Hxy]; [|destruct (Nat.eqb_spec x 1) as [->|Hx];
    [|destruct (Nat.eqb_spec y 1) as [->|Hy]; [|discriminate]]];
    intros [= ->]; rewrite ?Nat.eqb_refl, ?orb_true_r; simpl; auto.
Qed.

Lemma expandable_rev_refl (s : list nat) : expandable_rev s s = true.
Proof. induction s as [|d s IH]; simpl; [|rewrite Nat.eqb_refl, IH]; reflexivity. Qed.

Lemma broadcast_rev_expandable (a b c : list nat) :
  broadcast_rev a b = Ok c ->
  expandable_rev a c = true /\ expandable_rev b c = true.
Proof.
  revert b c; induction a as [|x a IH]; intros [|y b] c; simpl.
  - intros [= <-]. auto.
  - intros [= <-]. simpl. rewrite Nat.eqb_refl, expandable_rev_refl. auto.
  - intros [= <-]. simpl. rewrite Nat.eqb_refl, expandable_rev_refl. auto.
  - destruct (broadcast_rev a b) as [r|e] eqn:Hr; [|discriminate]. simpl.
    destruct (broadcast_dim x y) as [d|e] eqn:Hd; [|discriminate]. simpl.
    intros [= <-]. simpl.
    destruct (IH _ _ Hr) as [Ha Hb], (broadcast_dim_inv _ _ _ Hd) as [Hx Hy].
    rewrite Ha, Hb, Hx, Hy. auto.
Qed.

Lemma expandable_rev_length (s c : list nat) :
  expandable_rev s c = true -> (length s <= length c)%nat.
Proof.
  revert c; induction s as [|d s IH]; intros [|n c]; simpl; try lia; try discriminate.
  intros [_ Hs]%andb_prop. specialize (IH _ Hs). lia.
Qed.

Lemma expandable_rev_broadcast (s c : list nat) :
  expandable_rev s c = true -> broadcast_rev c s = Ok c.
Proof.
  revert c; induction s as [|d s IH]; intros [|n c]; simpl; try reflexivity;
    try discriminate.
  intros [Hd Hs]%andb_prop. rewrite (IH _ Hs). simpl.
  unfold broadcast_dim.
  destruct (Nat.eqb_spec n d) as [->|Hnd]; [reflexivity|].
  apply orb_prop in Hd as [Hd|Hd]; apply Nat.eqb_eq in Hd; subst; [congruence|].
  destruct (Nat.eqb_spec n 1); [congruence|reflexivity].
Qed.

(** ** Reading an operand at a position of the result *)

Lemma bidx_rev_in_range (s idx : list nat) :
  Forall2 lt idx s -> bidx_rev s idx = idx.
Proof.
  intros Hr; induction Hr as [|i d idx s Hid _ IH]; simpl; [reflexivity|].
  rewrite IH. destruct (Nat.eqb_spec d 1); [f_equal; lia|reflexivity].
Qed.

Lemma bidx_rev_expandable_range (s c idx : list nat) :
  expandable_rev s c = true -> Forall2 lt idx c ->
  Forall2 lt (bidx_rev s idx) s.
Proof.
  intros Hs Hr; revert s Hs.
  induction Hr as [|i n idx c Hin _ IH]; intros [|d s] Hs; simpl in *;
    try discriminate; try (constructor; fail).
  apply andb_prop in Hs as [Hd Hs]. constructor; [|apply IH, Hs].
  destruct (Nat.eqb_spec d 1); [lia|].
  rewrite orb_false_r in Hd. apply Nat.eqb_eq in Hd. lia.
Qed.

Lemma bidx_rev_compose (s c idx : list nat) :
  expandable_rev s c = true ->
  bidx_rev s (bidx_rev c idx) = bidx_rev s idx.
Proof.
  revert c idx; induction s as [|d s IH]; intros [|n c] [|i idx]; simpl;
    try reflexivity; try discriminate.
  intros [Hd Hs]%andb_prop. rewrite (IH _ _ Hs). f_equal.
  destruct (Nat.eqb_spec d 1); [reflexivity|].
  rewrite orb_false_r in Hd. apply Nat.eqb_eq in Hd. subst.
  destruct (Nat.eqb_spec n 1); [contradiction|reflexivity].
Qed.

(** The same facts on sizes in their natural order. *)

Lemma broadcast_shapes_expandable (a b c : Size) :
  broadcast_shapes a b = Ok c ->
  expandable a c = true /\ expandable b c = true.
Proof.
  unfold broadcast_shapes, expandable.
  destruct (broadcast_rev (rev a) (rev b)) as [r|e] eqn:Hr; [|discriminate].
  simpl. intros [= <-]. rewrite rev_involutive.
  apply broadcast_rev_expandable, Hr.
Qed.

Lemma expandable_broadcast (s c : Size) :
  expandable s c = true -> broadcast_shapes c s = Ok c.
Proof.
  unfold broadcast_shapes, expandable. intros Hs.
  rewrite (expandable_rev_broadcast _ _ Hs). simpl.
  rewrite rev_involutive. reflexivity.
Qed.

Lemma expandable_broadcast_l (s c : Size) :
  expandable s c = true -> broadcast_shapes s c = Ok c.
Proof. intros Hs. rewrite broadcast_shapes_comm. apply expandable_broadcast, Hs. Qed.

Lemma expandable_refl (s : Size) : expandable s s = true.
Proof. apply expandable_rev_refl. Qed.

Lemma bidx_in_range (s idx : Size) : in_range s idx -> bidx s idx = idx.
Proof.
  unfold in_range, bidx. intros Hr.
  rewrite (bidx_rev_in_range _ _ (Forall2_rev _ _ _ Hr)). apply rev_involutive.
Qed.

Lemma bidx_expandable_range (s c idx : Size) :
  expandable s c = true -> in_range c idx -> in_range s (bidx s idx).
Proof.
  unfold in_range, bidx, expandable. intros Hs Hr.
  rewrite <- (rev_involutive s) at 2.
  apply Forall2_rev, (bidx_rev_expandable_range _ _ _ Hs), Forall2_rev, Hr.
Qed.

Lemma bidx_compose (s c idx : Size) :
  expandable s c = true -> bidx s (bidx c idx) = bidx s idx.
Proof.
  unfold bidx, expandable. intros Hs.
  rewrite rev_involutive, (bidx_rev_compose _ _ _ Hs). reflexivity.
Qed.

End TorchFacts.

(** * Facts about [Normal_] *)

Module NormalFacts.
Import TorchFacts.

Lemma forallb_const_true {A : Type} (l : list A) : forallb (fun _ => true) l = true.
Proof. induction l; simpl; auto. Qed.

Lemma all_real (v : Tensor) : Torch.all (constraints.check constraints.real) v = true.
Proof. apply forallb_const_true. Qed.

Lemma broadcast_rev_compatible (a b r : list nat) :
  broadcast_rev a b = Ok r ->
  existsb (fun ij => negb (fst ij =? 1) && negb (snd ij =? 1)
                     && negb (fst ij =? snd ij)) (combine a b) = false.
Proof.
  revert b r; induction a as [|x a IH]; intros [|y b] r; simpl; try reflexivity.
  destruct (broadcast_rev a b) as [r'|e] eqn:Hr; [|discriminate]. simpl.
  destruct (broadcast_dim x y) as [d|e] eqn:Hd; [|discriminate]. intros _.
  rewrite (IH _ _ Hr), orb_false_r.
  unfold broadcast_dim in Hd.
  destruct (x =? y); [apply andb_false_r|].
  destruct (x =? 1); [reflexivity|].
  destruct (y =? 1); [reflexivity|discriminate].
Qed.

(** Validation against the support of [Normal_] accepts every value that
    broadcasts against the batch size. *)
Lemma validate_sample_ok (bs : Size) (v : Tensor) (s : Size) :
  broadcast_shapes (shape v) bs = Ok s ->
  Distribution._validate_sample bs [] Normal_.support v = Ok tt.
Proof.
  unfold Distribution._validate_sample, broadcast_shapes. intros Hs.
  destruct (broadcast_rev (rev (shape v)) (rev bs)) as [r|e] eqn:Hr; [|discriminate].
  unfold dim. simpl length. rewrite Nat.sub_0_r, skipn_all. simpl negb.
  rewrite app_nil_r, (broadcast_rev_compatible _ _ _ Hr).
  unfold Normal_.support. rewrite all_real. reflexivity.
Qed.

Lemma validate_ok (d : Normal_.t) (v : Tensor) (s : Size) :
  broadcast_shapes (shape v) (Normal_.batch_shape d) = Ok s ->
  Normal_.validate d v = Ok tt.
Proof.
  intros Hs. unfold Normal_.validate.
  destruct (Normal_._validate_args d); [|reflexivity].
  apply (validate_sample_ok _ _ _ Hs).
Qed.

(** [log_prob] evaluates the Gaussian log-density elementwise. *)
Lemma log_prob_elementwise (d : Normal_.t) (v : Tensor) (s : Size) :
  Normal_wf d ->
  broadcast_shapes (shape v) (Normal_.batch_shape d) = Ok s ->
  exists t, Normal_.log_prob d v = Ok t /\ shape t = s /\
    forall idx, in_range s idx ->
      data t idx =
        normal_log_density
          (data (Normal_.loc d) (bidx (Normal_.batch_shape d) idx))
          (data (Normal_.scale d) (bidx (Normal_.batch_shape d) idx))
          (data v (bidx (shape v) idx)).
Proof.
  intros [Hloc Hscale] Hs.
  destruct (broadcast_shapes_expandable _ _ _ Hs) as [_ Hbs].
  unfold Normal_.log_prob. rewrite (validate_ok _ _ _ Hs).
  unfold Torch.sub, Torch.div, binop. cbn [bind].
  rewrite Hloc, Hs. cbn [bind shape Torch.map Torch.log].
  rewrite Hscale, (expandable_broadcast _ _ Hbs).
  cbn [bind shape Torch.map Torch.log].
  rewrite ?Hscale, (expandable_broadcast _ _ Hbs). cbn [bind].
  eexists. split; [reflexivity|]. split; [reflexivity|].
  intros idx Hidx. cbn [data Torch.map Torch.log].
  rewrite !(bidx_in_range _ _ Hidx). reflexivity.
Qed.

(** [expand] succeeds exactly on the sizes the parameters expand to, and
    keeps the invariant and the validation flag. *)
Lemma expand_ok (d : Normal_.t) (ns : Size) :
  Normal_wf d ->
  expandable (Normal_.batch_shape d) ns = true ->
  Normal_.expand d ns =
    Ok (Normal_.mk
          (mkTensor ns (fun idx => data (Normal_.loc d) (bidx (Normal_.batch_shape d) idx)))
          (mkTensor ns (fun idx => data (Normal_.scale d) (bidx (Normal_.batch_shape d) idx)))
          ns (Normal_._validate_args d)).
Proof.
  intros [Hloc Hscale] Hns.
  unfold Normal_.expand, Torch.expand. rewrite Hloc, Hscale, Hns. reflexivity.
Qed.

Lemma broadcast_rev_nil_r (v : list nat) : broadcast_rev v [] = Ok v.
Proof. destruct v; reflexivity. Qed.

Lemma broadcast_dim_one_r (x : nat) : broadcast_dim x 1 = Ok x.
Proof.
  unfold broadcast_dim. destruct (Nat.eqb_spec x 1) as [->|_]; reflexivity.
Qed.

(** Broadcasting a value against a size and against a size that expands
    to it: the second succeeds whenever the first does, with a result the
    first result is an expansion of. *)
Lemma broadcast_rev_mono (b n v c : list nat) :
  expandable_rev b n = true ->
  broadcast_rev v n = Ok c ->
  exists c', broadcast_rev v b = Ok c' /\ expandable_rev c' c = true.
Proof.
  revert n v c; induction b as [|d b IH]; intros n v c Hb Hc.
  - exists v. split; [apply broadcast_rev_nil_r|].
    apply (broadcast_rev_expandable _ _ _ Hc).
  - destruct n as [|m n]; [discriminate|]. simpl in Hb.
    apply andb_prop in Hb as [Hd Hb].
    destruct v as [|x v].
    + simpl in Hc. injection Hc as <-. exists (d :: b). split; [reflexivity|].
      simpl. rewrite Hd, Hb. reflexivity.
    + simpl in Hc.
      destruct (broadcast_rev v n) as [r|e] eqn:Hr; [|discriminate].
      destruct (broadcast_dim x m) as [k|e] eqn:Hk; [|discriminate].
      simpl in Hc. injection Hc as <-.
      destruct (IH _ _ _ Hb Hr) as (r' & Hr' & Hrr).
      simpl. rewrite Hr'. simpl.
      apply orb_prop in Hd as [Hd|Hd]; apply Nat.eqb_eq in Hd; subst d.
      * rewrite Hk. simpl. eexists; split; [reflexivity|].
        simpl. rewrite Nat.eqb_refl, Hrr. reflexivity.
      * rewrite broadcast_dim_one_r. simpl. eexists; split; [reflexivity|].
        simpl. rewrite Hrr, andb_true_r.
        apply (broadcast_dim_inv _ _ _ Hk).
Qed.

Lemma broadcast_shapes_mono (b n v c : Size) :
  expandable b n = true ->
  broadcast_shapes v n = Ok c ->
  exists c', broadcast_shapes v b = Ok c' /\ expandable c' c = true.
Proof.
  unfold expandable, broadcast_shapes. intros Hb Hc.
  destruct (broadcast_rev (rev v) (rev n)) as [r|e] eqn:Hr; [|discriminate].
  simpl in Hc. injection Hc as <-.
  destruct (broadcast_rev_mono _ _ _ _ Hb Hr) as (r' & Hr' & Hrr).
  rewrite Hr'. simpl. eexists; split; [reflexivity|].
  rewrite !rev_involutive. exact Hrr.
Qed.

Section WithEngine.
Context `{TensorEngine}.

(** [icdf] evaluates its closed form elementwise, whatever the
    validation flag. *)
Lemma icdf_elementwise (d : Normal_.t) (v : Tensor) (s : Size) :
  Normal_wf d ->
  broadcast_shapes (shape v) (Normal_.batch_shape d) = Ok s ->
  exists t, Normal_.icdf d v = Ok t /\ shape t = s /\
    forall idx, in_range s idx ->
      data t idx =
        (data (Normal_.loc d) (bidx (Normal_.batch_shape d) idx)
         + data (Normal_.scale d) (bidx (Normal_.batch_shape d) idx)
           * erfinv (2 * data v (bidx (shape v) idx) - 1) * sqrt 2)%R.
Proof.
  intros [Hloc Hscale] Hs.
  destruct (broadcast_shapes_expandable _ _ _ Hs) as [_ Hbs].
  unfold Normal_.icdf. rewrite (validate_ok _ _ _ Hs).
  unfold Torch.mul, Torch.add, binop. cbn [bind shape Torch.map].
  rewrite Hscale, broadcast_shapes_comm, Hs. cbn [bind shape Torch.map].
  rewrite Hloc, (expandable_broadcast_l _ _ Hbs). cbn [bind].
  eexists. split; [reflexivity|]. split; [reflexivity|].
  intros idx Hidx. cbn [data Torch.map shape].
  rewrite !(bidx_in_range _ _ Hidx). reflexivity.
Qed.

Lemma cdf_elementwise (d : Normal_.t) (v : Tensor) (s : Size) :
  Normal_wf d ->
  broadcast_shapes (shape v) (Normal_.batch_shape d) = Ok s ->
  exists t, Normal_.cdf d v = Ok t /\ shape t = s /\
    forall idx, in_range s idx ->
      data t idx =
        (0.5 * (1 + erf ((data v (bidx (shape v) idx)
                          - data (Normal_.loc d) (bidx (Normal_.batch_shape d) idx))
                         * / data (Normal_.scale d) (bidx (Normal_.batch_shape d) idx)
                         / sqrt 2)))%R.
Proof.
  intros [Hloc Hscale] Hs.
  destruct (broadcast_shapes_expandable _ _ _ Hs) as [_ Hbs].
  unfold Normal_.cdf. rewrite (validate_ok _ _ _ Hs).
  unfold Torch.mul, Torch.sub, binop. cbn [bind].
  rewrite Hloc, Hs. cbn [bind shape Torch.map Torch.reciprocal].
  rewrite Hscale, (expandable_broadcast _ _ Hbs). cbn [bind].
  eexists. split; [reflexivity|]. split; [reflexivity|].
  intros idx Hidx. cbn [data Torch.map Torch.reciprocal shape].
  rewrite !(bidx_in_range _ _ Hidx). reflexivity.
Qed.

End WithEngine.

End NormalFacts.

(** * Properties of [Normal_] *)

Module NormalProperties.
Import TorchFacts NormalFacts.

(** The constructor establishes the invariant. *)
Lemma init_wf (loc scale : arg) (validate_args : option bool) (d : Normal_.t) :
  Normal_.__init__ loc scale validate_args = Ok d -> Normal_wf d.
Proof.
  unfold Normal_.__init__, broadcast_all, Torch.expand.
  destruct loc as [x|t], scale as [y|u]; cbn [bind].
  1-3: destruct (Distribution.__init__ _ _); [|discriminate];
       intros [= <-]; split; reflexivity.
  destruct (broadcast_shapes (shape t) (shape u)) as [s|e]; [|discriminate].
  cbn [bind]. destruct (expandable (shape t) s); [|discriminate].
  cbn [bind]. destruct (expandable (shape u) s); [|discriminate].
  cbn [bind]. destruct (Distribution.__init__ _ _); [|discriminate].
  intros [= <-]. split; reflexivity.
Qed.

Lemma sigmoid_inverse (y : R) : (-1 < y < 1)%R -> sigmoid (sigmoid_inv y) = y.
Proof.
  intros Hy. unfold sigmoid, sigmoid_inv.
  assert (Hpos : (0 < 1 - y ^ 2)%R) by nra.
  pose proof (sqrt_lt_R0 _ Hpos) as Hw.
  pose proof (sqrt_sqrt (1 - y ^ 2) (Rlt_le _ _ Hpos)) as Hww.
  set (w := sqrt (1 - y ^ 2)) in *.
  replace (1 + (y / w) ^ 2)%R with ((/ w) ^ 2)%R.
  - rewrite sqrt_pow2 by (left; apply Rinv_0_lt_compat, Hw).
    field. lra.
  - field_simplify; [|lra|lra]. f_equal. nra.
Qed.

(** C8.  For every Gaussian and every value that broadcasts against its
    parameters, [log_prob value] succeeds, has the broadcast size, and is
    [-0.5 * ((value - loc) / scale)^2 - log scale - 0.5 * log (2 pi)]
    at every position, each operand read at its broadcast position. *)
Theorem log_prob_formula (d : Normal_.t) (value : Tensor) (s : Size) :
  Normal_wf d ->
  broadcast_shapes (shape value) (Normal_.batch_shape d) = Ok s ->
  exists t, Normal_.log_prob d value = Ok t /\ shape t = s /\
    forall idx, in_range s idx ->
      let loc := data (Normal_.loc d) (bidx (Normal_.batch_shape d) idx) in
      let scale := data (Normal_.scale d) (bidx (Normal_.batch_shape d) idx) in
      let x := data value (bidx (shape value) idx) in
      data t idx = (-0.5 * ((x - loc) / scale) ^ 2 - ln scale - 0.5 * ln (2 * PI))%R.
Proof.
  intros Hwf Hs.
  destruct (log_prob_elementwise d value s Hwf Hs) as (t & Ht & Hshape & Hdata).
  exists t. split; [exact Ht|]. split; [exact Hshape|].
  intros idx Hidx. cbv zeta. rewrite (Hdata idx Hidx). reflexivity.
Qed.

Lemma log_prob_formula_witness :
  exists t, Normal_.log_prob two_gaussians (full [3; 1]%nat 0%R) = Ok t /\
            shape t = [3; 2]%nat /\
            data t [0; 1]%nat
            = (-0.5 * ((0 - 1) / 1) ^ 2 - ln 1 - 0.5 * ln (2 * PI))%R.
Proof.
  destruct (log_prob_formula two_gaussians (full [3; 1]%nat 0%R) [3; 2]%nat)
    as (t & Ht & Hshape & Hdata); [split; reflexivity | reflexivity |].
  exists t. split; [exact Ht|]. split; [exact Hshape|].
  apply (Hdata [0; 1]%nat). repeat constructor.
Defined.

(** C9.  [entropy ()] has the size of [scale] and is
    [0.5 + 0.5 * log (2 pi) + log scale] at every position. *)
Theorem entropy_formula (d : Normal_.t) :
  shape (Normal_.entropy d) = shape (Normal_.scale d) /\
  forall idx,
    data (Normal_.entropy d) idx
    = (0.5 + 0.5 * ln (2 * PI) + ln (data (Normal_.scale d) idx))%R.
Proof. split; [reflexivity|]. intros idx. reflexivity. Qed.

Lemma expand_wf (d new : Normal_.t) (ns : Size) :
  Normal_wf d -> Normal_.expand d ns = Ok new -> Normal_wf new.
Proof.
  intros Hwf. destruct (expandable (Normal_.batch_shape d) ns) eqn:Hns.
  - rewrite (expand_ok d ns Hwf Hns). intros [= <-]. split; reflexivity.
  - destruct Hwf as [Hloc _]. unfold Normal_.expand, Torch.expand.
    rewrite Hloc, Hns. discriminate.
Qed.

(** C7.  When the batch size of a Gaussian expands to [ns], [expand ns]
    returns an instance of batch size [ns] with the validation flag of the
    source; for every value that broadcasts against [ns], [log_prob] of
    both instances succeeds, and the new log-density at a position is the
    source's log-density at the position it comes from (added leading
    axes dropped, expanded axes read at 0). *)
Theorem expand_preserves_log_prob (d : Normal_.t) (ns : Size) (value : Tensor) (c : Size) :
  Normal_wf d ->
  expandable (Normal_.batch_shape d) ns = true ->
  broadcast_shapes (shape value) ns = Ok c ->
  exists new lp_new lp,
    Normal_.expand d ns = Ok new /\
    Normal_.batch_shape new = ns /\
    Normal_._validate_args new = Normal_._validate_args d /\
    Normal_.log_prob new value = Ok lp_new /\
    Normal_.log_prob d value = Ok lp /\
    shape lp_new = c /\
    forall idx, in_range c idx -> data lp_new idx = data lp (bidx (shape lp) idx).
Proof.
  intros Hwf Hns Hc.
  pose proof (expand_ok d ns Hwf Hns) as Hnew.
  set (new := Normal_.mk _ _ _ _) in Hnew.
  assert (Hwf' : Normal_wf new) by (split; reflexivity).
  destruct (log_prob_elementwise new value c Hwf' Hc) as (lpn & Hlpn & Hsn & Hdn).
  destruct (broadcast_shapes_mono _ _ _ _ Hns Hc) as (c' & Hc' & Hcc).
  destruct (log_prob_elementwise d value c' Hwf Hc') as (lp & Hlp & Hsl & Hdl).
  destruct (broadcast_shapes_expandable _ _ _ Hc') as [Hv Hb].
  exists new, lpn, lp. repeat (split; [first [assumption | reflexivity]|]).
  intros idx Hidx.
  rewrite (Hdn idx Hidx), Hsl, (Hdl _ (bidx_expandable_range _ _ _ Hcc Hidx)).
  cbn [new Normal_.loc Normal_.scale Normal_.batch_shape Normal_._batch_shape data].
  rewrite !(bidx_compose _ _ _ Hns), !(bidx_compose _ _ _ Hv), !(bidx_compose _ _ _ Hb).
  reflexivity.
Qed.

Lemma expand_preserves_log_prob_witness :
  exists new lp_new lp,
    Normal_.expand two_gaussians [3; 2]%nat = Ok new /\
    Normal_.batch_shape new = [3; 2]%nat /\
    Normal_._validate_args new = Normal_._validate_args two_gaussians /\
    Normal_.log_prob new (full [2%nat] 0%R) = Ok lp_new /\
    Normal_.log_prob two_gaussians (full [2%nat] 0%R) = Ok lp /\
    shape lp_new = [3; 2]%nat /\
    forall idx, in_range [3; 2]%nat idx ->
                data lp_new idx = data lp (bidx (shape lp) idx).
Proof.
  apply (expand_preserves_log_prob two_gaussians [3; 2]%nat (full [2%nat] 0%R)).
  - split; reflexivity.
  - reflexivity.
  - reflexivity.
Defined.

Section WithEngine.
Context `{TensorEngine}.

(** C2, as the code has it.  [icdf] validates its argument against the
    support of the distribution, the reals, and not against (0,1): for
    every value that broadcasts against the parameters, inside (0,1)
    or not and whatever the validation flag, [icdf value] succeeds and
    is [loc + scale * erfinv (2 * value - 1) * sqrt 2] at every
    position. *)
Theorem icdf_formula (d : Normal_.t) (value : Tensor) (s : Size) :
  Normal_wf d ->
  broadcast_shapes (shape value) (Normal_.batch_shape d) = Ok s ->
  exists t, Normal_.icdf d value = Ok t /\ shape t = s /\
    forall idx, in_range s idx ->
      let loc := data (Normal_.loc d) (bidx (Normal_.batch_shape d) idx) in
      let scale := data (Normal_.scale d) (bidx (Normal_.batch_shape d) idx) in
      let p := data value (bidx (shape value) idx) in
      data t idx = (loc + scale * erfinv (2 * p - 1) * sqrt 2)%R.
Proof.
  intros Hwf Hs.
  destruct (icdf_elementwise d value s Hwf Hs) as (t & Ht & Hshape & Hdata).
  exists t. split; [exact Ht|]. split; [exact Hshape|].
  intros idx Hidx. cbv zeta. apply (Hdata idx Hidx).
Qed.

(** C6.  For a Gaussian with positive scales, an inverse error function
    that is a right inverse of the error function on (-1,1), and
    probabilities [p] in (0,1) that broadcast against the parameters:
    [icdf p] succeeds, [cdf] of it succeeds, and the result is [p] at
    every position. *)
Theorem cdf_icdf (d : Normal_.t) (p : Tensor) (s : Size) :
  (forall x, (-1 < x < 1)%R -> erf (erfinv x) = x) ->
  Normal_wf d ->
  positive_scale d ->
  broadcast_shapes (shape p) (Normal_.batch_shape d) = Ok s ->
  (forall idx, in_range (shape p) idx -> (0 < data p idx < 1)%R) ->
  exists q r, Normal_.icdf d p = Ok q /\ Normal_.cdf d q = Ok r /\
    shape r = s /\
    forall idx, in_range s idx -> data r idx = data p (bidx (shape p) idx).
Proof.
  intros Herf Hwf Hpos Hs Hp.
  destruct (broadcast_shapes_expandable _ _ _ Hs) as [Hps Hbs].
  destruct (icdf_elementwise d p s Hwf Hs) as (q & Hq & Hqs & Hqd).
  assert (Hs' : broadcast_shapes (shape q) (Normal_.batch_shape d) = Ok s)
    by (rewrite Hqs; apply expandable_broadcast, Hbs).
  destruct (cdf_elementwise d q s Hwf Hs') as (r & Hr & Hrs & Hrd).
  exists q, r. split; [exact Hq|]. split; [exact Hr|]. split; [exact Hrs|].
  intros idx Hidx.
  rewrite (Hrd idx Hidx), Hqs, (bidx_in_range _ _ Hidx), (Hqd idx Hidx).
  pose proof (Hpos _ (bidx_expandable_range _ _ _ Hbs Hidx)) as Hsc.
  pose proof (Hp _ (bidx_expandable_range _ _ _ Hps Hidx)) as Hpi.
  set (l := data (Normal_.loc d) _) in *.
  set (sc := data (Normal_.scale d) _) in *.
  set (x := data p _) in *.
  assert (H2 : (0 < sqrt 2)%R) by (apply sqrt_lt_R0; lra).
  replace ((l + sc * erfinv (2 * x - 1) * sqrt 2 - l) * / sc / sqrt 2)%R
    with (erfinv (2 * x - 1)) by (field; lra).
  rewrite Herf by lra. lra.
Qed.

End WithEngine.

(** The concrete Gaussians are what the constructor returns. *)
Lemma two_gaussians_init :
  Normal_.__init__ (TensorArg (tensor1 [-1; 1]%R)) (Number 1%R) None = Ok two_gaussians.
Proof. reflexivity. Qed.

Lemma unit_gaussians_init (s : Size) :
  Normal_.__init__ (TensorArg (zeros s)) (Number 1%R) None = Ok (unit_gaussians s).
Proof. reflexivity. Qed.

Lemma validated_gaussian_init :
  Normal_.__init__ (Number 0%R) (Number 1%R) (Some true) = Ok validated_gaussian.
Proof.
  unfold Normal_.__init__, broadcast_all, Distribution.__init__,
    Normal_.arg_constraints. cbn [bind].
  unfold Torch.all, constraints.check. cbn.
  destruct (Rlt_dec 0 1) as [_|Hn]; [reflexivity | exfalso; lra].
Qed.

(** C2, as stated, fails: with validation on, [icdf] of 2, a value
    outside (0,1), is not rejected. *)
Lemma icdf_accepts_value_outside_unit_interval :
  Normal_._validate_args validated_gaussian = true /\
  ~ (0 < data (scalar 2%R) [] < 1)%R /\
  exists t, @Normal_.icdf example_engine validated_gaussian (scalar 2%R) = Ok t.
Proof.
  split; [reflexivity|]. split; [simpl; lra|].
  eexists. reflexivity.
Qed.

Lemma icdf_formula_witness :
  exists t, @Normal_.icdf example_engine validated_gaussian (scalar 2%R) = Ok t /\
            shape t = [] /\
            data t [] = (0 + 1 * sigmoid_inv (2 * 2 - 1) * sqrt 2)%R.
Proof.
  destruct (@icdf_formula example_engine validated_gaussian (scalar 2%R) [])
    as (t & Ht & Hshape & Hdata); [split; reflexivity | reflexivity |].
  exists t. split; [exact Ht|]. split; [exact Hshape|].
  apply (Hdata []). constructor.
Defined.

Lemma cdf_icdf_witness :
  exists q r,
    @Normal_.icdf example_engine two_gaussians (full [1%nat] 0.25%R) = Ok q /\
    @Normal_.cdf example_engine two_gaussians q = Ok r /\
    shape r = [2%nat] /\
    forall idx, in_range [2%nat] idx -> data r idx = 0.25%R.
Proof.
  apply (@cdf_icdf example_engine two_gaussians (full [1%nat] 0.25%R) [2%nat]).
  - exact sigmoid_inverse.
  - split; reflexivity.
  - intros idx _. simpl. lra.
  - reflexivity.
  - intros idx _. simpl. lra.
Defined.

End NormalProperties.

(** * Facts about [MixtureSameFamily] *)

Module MixtureFacts.
Import TorchFacts.

(** ** Engine operations on the sizes [log_prob] meets *)

Lemma permute_1230 (l : Tensor) (c a b n : nat) :
  shape l = [c; a; b; n]%nat ->
  permute [1; 2; 3; 0]%nat l
  = Ok (mkTensor [a; b; n; c]%nat
          (fun idx => data l [nth 3 idx 0; nth 0 idx 0; nth 1 idx 0; nth 2 idx 0]%nat)).
Proof. intros Hl. unfold permute, dim. rewrite Hl. reflexivity. Qed.

Lemma permute_wrong_rank (dims : list nat) (v : Tensor) :
  length (shape v) <> length dims -> permute dims v = Err RuntimeError.
Proof.
  intros Hv. unfold permute, dim.
  destruct (Nat.eqb_spec (length dims) (length (shape v))) as [Heq|_];
    [congruence|reflexivity].
Qed.

Lemma unsqueeze_last_shape (t : Tensor) :
  shape (unsqueeze (dim t) t) = shape t ++ [1%nat].
Proof. unfold unsqueeze, dim. simpl. rewrite firstn_all, skipn_all. reflexivity. Qed.

Lemma bidx_rev_length (s idx : list nat) :
  length (bidx_rev s idx) = Nat.min (length s) (length idx).
Proof.
  revert idx; induction s as [|d s IH]; intros [|i idx]; simpl; try reflexivity.
  rewrite IH. reflexivity.
Qed.

Lemma bidx_length (s idx : Size) :
  length (bidx s idx) = Nat.min (length s) (length idx).
Proof. unfold bidx. rewrite length_rev, bidx_rev_length, !length_rev. reflexivity. Qed.

Lemma bidx_snoc (s idx : Size) (d k : nat) :
  bidx (s ++ [d]) (idx ++ [k]) = bidx s idx ++ [if d =? 1 then 0%nat else k].
Proof. unfold bidx. rewrite !rev_app_distr. reflexivity. Qed.

Lemma expandable_snoc (s c : Size) (k : nat) :
  expandable s c = true -> expandable (s ++ [1%nat]) (c ++ [k]) = true.
Proof.
  unfold expandable. intros Hs. rewrite !rev_app_distr. simpl.
  rewrite Hs, orb_true_r. reflexivity.
Qed.

Lemma expandable_length (s c : Size) :
  expandable s c = true -> (length s <= length c)%nat.
Proof.
  unfold expandable. intros Hs%expandable_rev_length.
  rewrite !length_rev in Hs. exact Hs.
Qed.

Lemma sum_last_snoc (s : Size) (n : nat) (f : list nat -> R) :
  sum_last (mkTensor (s ++ [n]) f)
  = mkTensor s (fun idx => Rsum (List.map (fun m => f (idx ++ [m])) (seq 0 n))).
Proof.
  unfold sum_last. cbn [shape data].
  destruct (s ++ [n]) as [|d l] eqn:E.
  - destruct s; discriminate.
  - rewrite <- E, removelast_last, last_last. reflexivity.
Qed.

Lemma in_range_snoc (s idx : Size) (n m : nat) :
  in_range s idx -> (m < n)%nat -> in_range (s ++ [n]) (idx ++ [m]).
Proof.
  intros Hs Hm. apply Forall2_app; [exact Hs|]. repeat constructor. exact Hm.
Qed.

(** ** The numerically stable log-sum-exp is the logarithm of the sum of
    exponentials *)

Lemma Rsum_shift (m : R) (l : list R) :
  Rsum (List.map (fun x => exp (x - m)) l) = (exp (- m) * Rsum (List.map exp l))%R.
Proof.
  induction l as [|x l IH]; simpl.
  - lra.
  - rewrite IH. unfold Rminus. rewrite exp_plus. lra.
Qed.

Lemma Rsum_exp_pos (l : list R) : l <> [] -> (0 < Rsum (List.map exp l))%R.
Proof.
  intros Hl. destruct l as [|x l]; [contradiction|]. clear Hl. simpl.
  assert (Hnn : (0 <= Rsum (List.map exp l))%R).
  { induction l as [|y l IH]; simpl; [lra|]. pose proof (exp_pos y). lra. }
  pose proof (exp_pos x). lra.
Qed.

Lemma logsumexp_list_spec (l : list R) :
  l <> [] -> logsumexp_list l = ln (Rsum (List.map exp l)).
Proof.
  intros Hl. unfold logsumexp_list. rewrite Rsum_shift.
  rewrite ln_mult by (first [apply exp_pos | apply Rsum_exp_pos, Hl]).
  rewrite ln_exp. lra.
Qed.

Section WithCollaborators.
Context {M D : Type} `{Mixing.t M} `{Components.t D}.

(** The first two statements of [log_prob]: a value of size [a, b, c]
    becomes a tensor of size [c, a, b, n] that holds [value[i, j, k]] at
    every position [k, i, j, m]. *)
Lemma log_prob_pad (mix : MixtureSameFamily.t M D) (v : Tensor) (a b c n : nat) :
  shape v = [a; b; c]%nat ->
  MixtureSameFamily.last_dim (MixtureSameFamily.batch_shape mix) = Ok n ->
  exists x,
    shape x = [c; a; b; n]%nat /\
    (forall k i j m, (k < c)%nat -> (i < a)%nat -> (j < b)%nat -> (m < n)%nat ->
                     data x [k; i; j; m]%nat = data v [i; j; k]%nat) /\
    MixtureSameFamily.log_prob mix v =
      (lp <- Components.log_prob (MixtureSameFamily.components_distribution mix) x;;
       log_prob_components <- permute [1; 2; 3; 0]%nat lp;;
       let log_prob_mixture :=
         Mixing.logits (MixtureSameFamily.mixture_distribution mix) in
       let log_prob_mixture :=
         unsqueeze (dim log_prob_mixture) log_prob_mixture in
       s <- Torch.add log_prob_mixture log_prob_components;;
       logsumexp_dim2 s).
Proof.
  intros Hv Hn.
  exists (mkTensor [c; a; b; n]%nat
            (fun idx => data v (List.map (fun k => nth (index_of k [2; 0; 1]%nat)
               (firstn 3 (skipn 0 (zip_with Nat.modulo idx [c; a; b; 1]%nat))
                ++ skipn 4 (skipn 0 (zip_with Nat.modulo idx [c; a; b; 1]%nat)))
               0%nat) (seq 0 3)))).
  split; [reflexivity|]. split.
  - intros k i j m Hk Hi Hj Hm. cbn [data].
    cbn [zip_with skipn firstn app List.map seq index_of Nat.eqb nth].
    rewrite !Nat.mod_small by assumption. reflexivity.
  - unfold MixtureSameFamily.log_prob.
    unfold permute at 1. unfold dim at 1. rewrite Hv.
    cbn [length Nat.eqb is_permutation andb forallb seq existsb orb bind].
    rewrite Hn. cbn [bind].
    unfold Torch.repeat, unsqueeze, dim.
    cbn [shape data length List.map nth firstn skipn app Nat.ltb Nat.leb Nat.sub
         List.repeat zip_with bind].
    rewrite !Nat.mul_1_r, Nat.mul_1_l. reflexivity.
Qed.

(** The rest of [log_prob], once the component log-densities [l] of the
    padded value are known and have its size: the result has the size of
    the value, and holds the log-sum-exp over the components [m] of
    logit plus component log-density. *)
Lemma log_prob_reduce (mix : MixtureSameFamily.t M D) (l : Tensor) (a b c n : nat) :
  let logits := Mixing.logits (MixtureSameFamily.mixture_distribution mix) in
  shape l = [c; a; b; n]%nat ->
  expandable (shape logits) [a; b; n]%nat = true ->
  exists t,
    (log_prob_components <- permute [1; 2; 3; 0]%nat l;;
     let log_prob_mixture := unsqueeze (dim logits) logits in
     s <- Torch.add log_prob_mixture log_prob_components;;
     logsumexp_dim2 s) = Ok t /\
    shape t = [a; b; c]%nat /\
    forall i j k, (i < a)%nat -> (j < b)%nat -> (k < c)%nat ->
      data t [i; j; k]%nat =
        logsumexp_list
          (List.map (fun m => (data logits (bidx (shape logits) [i; j; m]%nat)
                               + data l [k; i; j; m]%nat)%R)
                    (seq 0 n)).
Proof.
  intros logits Hl Hlg.
  rewrite (permute_1230 l c a b n Hl). cbn [bind].
  unfold Torch.add, binop. rewrite unsqueeze_last_shape. cbn [shape].
  pose proof (expandable_snoc _ _ c Hlg) as Hlg'.
  change ([a; b; n] ++ [c])%nat with [a; b; n; c]%nat in Hlg'.
  rewrite (expandable_broadcast_l _ _ Hlg'). cbn [bind].
  unfold logsumexp_dim2. cbn [shape rev app].
  eexists. split; [reflexivity|]. split; [reflexivity|].
  intros i j k Hi Hj Hk. cbn [data removelast last app].
  f_equal. apply map_ext_in. intros m Hm%in_seq.
  assert (Hr : in_range [a; b; n; c]%nat [i; j; m; k]%nat)
    by (repeat constructor; lia).
  rewrite (bidx_in_range _ _ Hr). cbn [nth].
  change [i; j; m; k]%nat with ([i; j; m] ++ [k])%nat.
  rewrite bidx_snoc. cbn [Nat.eqb].
  unfold unsqueeze, dim. cbn [data].
  pose proof (expandable_length _ _ Hlg) as Hlen. cbn [length] in Hlen.
  assert (Hb : length (bidx (shape logits) [i; j; m]%nat) = length (shape logits))
    by (rewrite bidx_length; cbn [length]; lia).
  rewrite <- Hb.
  rewrite firstn_app, firstn_all, Nat.sub_diag. cbn [firstn].
  rewrite skipn_all2 by (rewrite length_app; cbn [length]; lia).
  rewrite !app_nil_r. reflexivity.
Qed.

End WithCollaborators.

End MixtureFacts.

(** * Properties of [MixtureSameFamily] *)

Module MixtureProperties.
Import TorchFacts NormalFacts MixtureFacts.

Section WithCollaborators.
Context {M D : Type} `{Mixing.t M} `{Components.t D}.

(** C3, as the code has it.  The constructor checks nothing: for every pair
    of distributions it succeeds and records the batch and event size of
    the component distribution. *)
Theorem init_always_succeeds (mixture_distribution : M) (components_distribution : D) :
  MixtureSameFamily.__init__ mixture_distribution components_distribution
  = Ok (MixtureSameFamily.mk mixture_distribution components_distribution
          (Components.batch_shape components_distribution)
          (Components.event_shape components_distribution)).
Proof. reflexivity. Qed.

(** C4, as the code has it.  A mask with exactly three axes, of size
    [s, d, m], gets its singleton axis at position 1: the aligned mask has
    size [s, 1, d, m], holds [mask[i, j, k]] at [i, q, j, k], and is what
    [sample] multiplies with the component samples before summing over the
    last axis. *)
Theorem sample_mask_alignment (mix : MixtureSameFamily.t M D)
        (sample_shape : Size) (mask : Tensor) (s d m : nat) :
  Mixing.sample (MixtureSameFamily.mixture_distribution mix) sample_shape = Ok mask ->
  shape mask = [s; d; m]%nat ->
  let aligned := unsqueeze 1 mask in
  shape aligned = [s; 1; d; m]%nat /\
  (forall i q j k, data aligned [i; q; j; k]%nat = data mask [i; j; k]%nat) /\
  MixtureSameFamily.sample mix sample_shape =
    (components_samples <-
       Components.rsample (MixtureSameFamily.components_distribution mix) sample_shape;;
     prod <- Torch.mul aligned components_samples;;
     Ok (sum_last prod)).
Proof.
  intros Hmask Hshape aligned. split; [|split].
  - unfold aligned, unsqueeze. cbn [shape]. rewrite Hshape. reflexivity.
  - intros i q j k. reflexivity.
  - unfold MixtureSameFamily.sample. rewrite Hmask. cbn [bind].
    rewrite Hshape. reflexivity.
Qed.

(** C5, as the code has it.  When the mask and the component samples both
    have the size [sample_shape ++ batch ++ [n]] (components of batch size
    [batch ++ [n]] and empty event size) and that size does not have
    exactly three axes, [sample] succeeds with a result of size
    [sample_shape ++ batch]: the sum over the [n] components of mask times
    component sample. *)
Theorem sample_shape_and_value (mix : MixtureSameFamily.t M D)
        (sample_shape batch : Size) (n : nat) (mask comps : Tensor) :
  Mixing.sample (MixtureSameFamily.mixture_distribution mix) sample_shape = Ok mask ->
  Components.rsample (MixtureSameFamily.components_distribution mix) sample_shape
  = Ok comps ->
  shape mask = sample_shape ++ batch ++ [n] ->
  shape comps = sample_shape ++ batch ++ [n] ->
  length (sample_shape ++ batch ++ [n]) <> 3%nat ->
  exists t, MixtureSameFamily.sample mix sample_shape = Ok t /\
    shape t = sample_shape ++ batch /\
    forall idx, in_range (sample_shape ++ batch) idx ->
      data t idx = Rsum (List.map (fun m => (data mask (idx ++ [m])
                                             * data comps (idx ++ [m]))%R)
                                  (seq 0 n)).
Proof.
  intros Hmask Hcomps Hms Hcs Hrank.
  unfold MixtureSameFamily.sample. rewrite Hmask. cbn [bind].
  rewrite Hms. apply Nat.eqb_neq in Hrank. rewrite Hrank, Hcomps. cbn [bind].
  unfold Torch.mul, binop. rewrite Hms, Hcs.
  rewrite (expandable_broadcast _ _ (expandable_refl _)). cbn [bind].
  rewrite app_assoc, sum_last_snoc.
  eexists. split; [reflexivity|]. split; [reflexivity|].
  intros idx Hidx. cbn [data]. apply f_equal, map_ext_in. intros m Hm%in_seq.
  rewrite (bidx_in_range _ _ (in_range_snoc _ _ n m Hidx (proj2 Hm))).
  reflexivity.
Qed.

(** The three-axes branch as the code uses it: a mask of size [s, d, m]
    against component samples of size [s, b, d, m] gives a sample of size
    [s, b, d], the mask being read at [i, k, c] for the position
    [i, j, k]. *)
Lemma sample_three_axes (mix : MixtureSameFamily.t M D) (sample_shape : Size)
      (mask comps : Tensor) (s b d m : nat) :
  Mixing.sample (MixtureSameFamily.mixture_distribution mix) sample_shape = Ok mask ->
  Components.rsample (MixtureSameFamily.components_distribution mix) sample_shape
  = Ok comps ->
  shape mask = [s; d; m]%nat ->
  shape comps = [s; b; d; m]%nat ->
  exists t, MixtureSameFamily.sample mix sample_shape = Ok t /\
    shape t = [s; b; d]%nat /\
    forall i j k, (i < s)%nat -> (j < b)%nat -> (k < d)%nat ->
      data t [i; j; k]%nat
      = Rsum (List.map (fun c => (data mask [i; k; c]%nat
                                  * data comps [i; j; k; c]%nat)%R) (seq 0 m)).
Proof.
  intros Hmask Hcomps Hms Hcs.
  unfold MixtureSameFamily.sample. rewrite Hmask. cbn [bind].
  rewrite Hms, Hcomps. cbn [length Nat.eqb bind].
  unfold Torch.mul, binop, unsqueeze. cbn [shape]. rewrite Hms, Hcs.
  cbn [firstn skipn app].
  assert (He : expandable [s; 1; d; m]%nat [s; b; d; m]%nat = true).
  { unfold expandable. cbn [rev app expandable_rev].
    rewrite !Nat.eqb_refl, orb_true_r. reflexivity. }
  rewrite (expandable_broadcast_l _ _ He). cbn [bind].
  change [s; b; d; m]%nat with ([s; b; d] ++ [m])%nat. rewrite sum_last_snoc.
  eexists. split; [reflexivity|]. split; [reflexivity|].
  intros i j k Hi Hj Hk. cbn [data app]. apply f_equal, map_ext_in.
  intros c [_ Hc]%in_seq. cbn [Nat.add] in Hc.
  assert (Hr : in_range [s; b; d; m]%nat [i; j; k; c]%nat)
    by (repeat constructor; assumption).
  change ([s; b; d] ++ [m])%nat with [s; b; d; m]%nat.
  rewrite (bidx_in_range _ _ Hr).
  pose proof (bidx_expandable_range _ _ _ He Hr) as Hr'.
  unfold bidx in *. cbn [rev app bidx_rev Nat.eqb] in *.
  inversion Hr' as [|? ? ? ? _ Hr1]; subst. inversion Hr1 as [|? ? ? ? _ Hr2]; subst.
  inversion Hr2 as [|? ? ? ? Hkd Hr3]; subst. inversion Hr3 as [|? ? ? ? Hcm _]; subst.
  cbn [firstn skipn app].
  destruct (Nat.eqb_spec s 1), (Nat.eqb_spec d 1), (Nat.eqb_spec m 1); subst;
    repeat match goal with
           | Hlt : (?x < 1)%nat |- _ => assert (x = 0%nat) by lia; subst x; clear Hlt
           end; reflexivity.
Qed.

(** C1.  For a value of size [a, b, c], a mixture over [n >= 1] components
    whose logits broadcast into [a, b, n], and components that return, for
    the value padded to size [c, a, b, n], the log-density
    [logp i j m x] of component [m] of batch element [i, j] at
    [x = value[i, j, k]]: [log_prob value] succeeds with the size of the
    value, and at [i, j, k] it is the numerically stable log-sum-exp over
    the components [m] of logit plus component log-density, which is the
    logarithm of the sum over [m] of [exp logit_m * exp (logp i j m x)]. *)
Theorem log_prob_is_logsumexp (mix : MixtureSameFamily.t M D) (value : Tensor)
        (a b c n : nat) (logp : nat -> nat -> nat -> R -> R) :
  let logits := Mixing.logits (MixtureSameFamily.mixture_distribution mix) in
  shape value = [a; b; c]%nat ->
  MixtureSameFamily.last_dim (MixtureSameFamily.batch_shape mix) = Ok n ->
  (0 < n)%nat ->
  expandable (shape logits) [a; b; n]%nat = true ->
  (forall x,
      shape x = [c; a; b; n]%nat ->
      (forall k i j m, (k < c)%nat -> (i < a)%nat -> (j < b)%nat -> (m < n)%nat ->
                       data x [k; i; j; m]%nat = data value [i; j; k]%nat) ->
      exists l,
        Components.log_prob (MixtureSameFamily.components_distribution mix) x = Ok l /\
        shape l = [c; a; b; n]%nat /\
        forall k i j m, (k < c)%nat -> (i < a)%nat -> (j < b)%nat -> (m < n)%nat ->
                        data l [k; i; j; m]%nat = logp i j m (data value [i; j; k]%nat)) ->
  exists t, MixtureSameFamily.log_prob mix value = Ok t /\
    shape t = [a; b; c]%nat /\
    forall i j k, (i < a)%nat -> (j < b)%nat -> (k < c)%nat ->
      let logit m := data logits (bidx (shape logits) [i; j; m]%nat) in
      let x := data value [i; j; k]%nat in
      data t [i; j; k]%nat
      = logsumexp_list (List.map (fun m => (logit m + logp i j m x)%R) (seq 0 n)) /\
      data t [i; j; k]%nat
      = ln (Rsum (List.map (fun m => (exp (logit m) * exp (logp i j m x))%R) (seq 0 n))).
Proof.
  intros logits Hv Hn Hpos Hlg Hcomp.
  destruct (log_prob_pad mix value a b c n Hv Hn) as (x & Hxs & Hxd & Hrun).
  destruct (Hcomp x Hxs Hxd) as (l & Hl & Hls & Hld).
  destruct (log_prob_reduce mix l a b c n Hls Hlg) as (t & Ht & Hts & Htd).
  exists t. split; [|split; [exact Hts|]].
  - rewrite Hrun, Hl. exact Ht.
  - intros i j k Hi Hj Hk logit x0.
    assert (Hfirst : data t [i; j; k]%nat
              = logsumexp_list (List.map (fun m => (logit m + logp i j m x0)%R) (seq 0 n))).
    { rewrite (Htd i j k Hi Hj Hk). f_equal. apply map_ext_in. intros m Hm%in_seq.
      rewrite (Hld k i j m) by lia. reflexivity. }
    split; [exact Hfirst|].
    rewrite Hfirst, logsumexp_list_spec.
    + rewrite List.map_map. f_equal. f_equal. apply map_ext. intros m. apply exp_plus.
    + destruct n; [lia|]. discriminate.
Qed.

(** C10, as the code has it.  [log_prob] accepts only values with exactly
    three axes: for any other rank its first step fails.  For a value of
    size [a, b, c], when the components return for every tensor of the
    padded size [c, a, b, n] a tensor of that size and the logits broadcast
    into [a, b, n], [log_prob] succeeds and the result has the size of the
    value. *)
Theorem log_prob_rank_and_shape (mix : MixtureSameFamily.t M D) (value : Tensor) :
  (length (shape value) <> 3%nat ->
   MixtureSameFamily.log_prob mix value = Err RuntimeError) /\
  (forall a b c n,
      shape value = [a; b; c]%nat ->
      MixtureSameFamily.last_dim (MixtureSameFamily.batch_shape mix) = Ok n ->
      expandable (shape (Mixing.logits (MixtureSameFamily.mixture_distribution mix)))
                 [a; b; n]%nat = true ->
      (forall x, shape x = [c; a; b; n]%nat ->
                 exists l,
                   Components.log_prob (MixtureSameFamily.components_distribution mix) x
                   = Ok l /\ shape l = [c; a; b; n]%nat) ->
      exists t, MixtureSameFamily.log_prob mix value = Ok t /\ shape t = shape value).
Proof.
  split.
  - intros Hrank. unfold MixtureSameFamily.log_prob.
    rewrite (permute_wrong_rank [2; 0; 1]%nat value Hrank). reflexivity.
  - intros a b c n Hv Hn Hlg Hcomp.
    destruct (log_prob_pad mix value a b c n Hv Hn) as (x & Hxs & _ & Hrun).
    destruct (Hcomp x Hxs) as (l & Hl & Hls).
    destruct (log_prob_reduce mix l a b c n Hls Hlg) as (t & Ht & Hts & _).
    exists t. split; [rewrite Hrun, Hl; exact Ht | rewrite Hts, Hv; reflexivity].
Qed.

End WithCollaborators.

(** ** Concrete mixtures *)

Section Examples.
#[local] Existing Instance example_engine.

Lemma logsumexp_zero_zero : logsumexp_list [0; 0]%R = ln 2.
Proof.
  rewrite logsumexp_list_spec by discriminate.
  cbn [List.map Rsum fold_right]. rewrite exp_0. f_equal. lra.
Qed.

Lemma ln_half : ln 0.5 = (0 - ln 2)%R.
Proof. replace 0.5%R with (/ 2)%R by lra. rewrite ln_Rinv by lra. lra. Qed.

(** Gaussian components whose batch size expands to the padded size
    [c, a, b, n] return, for a padded value, log-densities of that size. *)
Lemma gaussian_components (d : Normal_.t) (x : Tensor) (c a b n : nat) :
  Normal_wf d ->
  expandable (Normal_.batch_shape d) [c; a; b; n]%nat = true ->
  shape x = [c; a; b; n]%nat ->
  exists l, Components.log_prob d x = Ok l /\ shape l = [c; a; b; n]%nat /\
    forall k i j m, (k < c)%nat -> (i < a)%nat -> (j < b)%nat -> (m < n)%nat ->
      data l [k; i; j; m]%nat
      = normal_log_density
          (data (Normal_.loc d) (bidx (Normal_.batch_shape d) [k; i; j; m]%nat))
          (data (Normal_.scale d) (bidx (Normal_.batch_shape d) [k; i; j; m]%nat))
          (data x [k; i; j; m]%nat).
Proof.
  intros Hwf Hbs Hxs.
  assert (Hb : broadcast_shapes (shape x) (Normal_.batch_shape d) = Ok [c; a; b; n]%nat)
    by (rewrite Hxs; apply expandable_broadcast, Hbs).
  destruct (log_prob_elementwise d x _ Hwf Hb) as (l & Hl & Hls & Hld).
  exists l. split; [exact Hl|]. split; [exact Hls|].
  intros k i j m Hk Hi Hj Hm.
  assert (Hr : in_range [c; a; b; n]%nat [k; i; j; m]%nat)
    by (repeat constructor; assumption).
  rewrite (Hld _ Hr), Hxs, (bidx_in_range _ _ Hr). reflexivity.
Qed.

(** The scenario of C1: equal weights from the logits [0, 0], components
    [Normal(-1, 1)] and [Normal(1, 1)], and the value 0 held by a tensor of
    size [1, 1, 1]. *)
Lemma log_prob_is_logsumexp_witness :
  exists md mix t,
    equal_weights = Ok md /\
    MixtureSameFamily.__init__ md two_gaussians = Ok mix /\
    MixtureSameFamily.log_prob mix (zeros [1; 1; 1]%nat) = Ok t /\
    shape t = [1; 1; 1]%nat /\
    data t [0; 0; 0]%nat
    = ln (exp (ln 0.5 + normal_log_density (-1) 1 0)
          + exp (ln 0.5 + normal_log_density 1 1 0)).
Proof.
  evar (md : OneHotCategorical.t).
  assert (Hmd : equal_weights = Ok md) by (unfold md; reflexivity).
  set (mix := MixtureSameFamily.mk md two_gaussians [2%nat] []).
  destruct (log_prob_is_logsumexp mix (zeros [1; 1; 1]%nat) 1 1 1 2
              (fun _ _ m x => normal_log_density (nth m [-1; 1]%R 0%R) 1 x))
    as (t & Ht & Hts & Htd).
  - reflexivity.
  - reflexivity.
  - lia.
  - reflexivity.
  - intros x Hxs Hxd.
    destruct (gaussian_components two_gaussians x 1 1 1 2) as (l & Hl & Hls & Hld);
      [split; reflexivity | reflexivity | exact Hxs |].
    exists l. split; [exact Hl|]. split; [exact Hls|].
    intros k i j m Hk Hi Hj Hm. rewrite (Hld k i j m Hk Hi Hj Hm).
    rewrite (Hxd k i j m Hk Hi Hj Hm).
    assert (k = 0 /\ i = 0 /\ j = 0)%nat as (-> & -> & ->) by lia.
    destruct m as [|[|m]]; [reflexivity | reflexivity | lia].
  - exists md, mix, t.
    split; [exact Hmd|]. split; [reflexivity|]. split; [exact Ht|]. split; [exact Hts|].
    destruct (Htd 0 0 0)%nat as [_ Hsum]; [lia | lia | lia |].
    rewrite Hsum. cbn. rewrite logsumexp_zero_zero, <- ln_half, <- !exp_plus.
    f_equal. lra.
Defined.

(** C3, as stated, fails: three outcomes against two components are
    accepted by the constructor, and the mismatch shows only when
    [log_prob] broadcasts. *)
Lemma init_accepts_mismatched_components :
  exists md mix,
    three_way = Ok md /\
    OneHotCategorical._num_events md = 3%nat /\
    MixtureSameFamily.last_dim (Components.batch_shape two_gaussians) = Ok 2%nat /\
    MixtureSameFamily.__init__ md two_gaussians = Ok mix /\
    MixtureSameFamily.log_prob mix (zeros [1; 1; 1]%nat) = Err RuntimeError.
Proof.
  eexists. eexists. split; [reflexivity|]. split; [reflexivity|].
  split; [reflexivity|]. split; reflexivity.
Qed.

(** C4, as stated, fails: a mask of size [2, 3, 4] becomes [2, 1, 3, 4] and
    not [2, 3, 1, 4], so against component samples of size [2, 3, 5, 4],
    which a mask of size [2, 3, 1, 4] broadcasts with, the multiplication
    fails. *)
Lemma sample_mask_not_on_event_axis :
  exists md mix mask comps,
    four_way = Ok md /\
    MixtureSameFamily.__init__ md (unit_gaussians [3; 5; 4]%nat) = Ok mix /\
    Mixing.sample md [2%nat] = Ok mask /\ shape mask = [2; 3; 4]%nat /\
    Components.rsample (unit_gaussians [3; 5; 4]%nat) [2%nat] = Ok comps /\
    shape comps = [2; 3; 5; 4]%nat /\
    shape (unsqueeze 1 mask) = [2; 1; 3; 4]%nat /\
    broadcast_shapes [2; 3; 1; 4]%nat (shape comps) = Ok [2; 3; 5; 4]%nat /\
    MixtureSameFamily.sample mix [2%nat] = Err RuntimeError.
Proof.
  eexists. eexists. eexists. eexists.
  repeat (split; [reflexivity|]). reflexivity.
Qed.

Lemma sample_mask_alignment_witness :
  exists md mix mask,
    four_way = Ok md /\
    MixtureSameFamily.__init__ md (unit_gaussians [3; 5; 4]%nat) = Ok mix /\
    Mixing.sample md [10%nat] = Ok mask /\
    shape (unsqueeze 1 mask) = [10; 1; 3; 4]%nat /\
    (forall i q j k, data (unsqueeze 1 mask) [i; q; j; k]%nat = data mask [i; j; k]%nat) /\
    MixtureSameFamily.sample mix [10%nat]
    = (components_samples <- Components.rsample (unit_gaussians [3; 5; 4]%nat) [10%nat];;
       prod <- Torch.mul (unsqueeze 1 mask) components_samples;;
       Ok (sum_last prod)).
Proof.
  eexists. eexists. eexists.
  split; [reflexivity|]. split; [reflexivity|]. split; [reflexivity|].
  match goal with
  | |- context [MixtureSameFamily.sample ?mix ?ss] =>
      apply (sample_mask_alignment mix ss _ 10 3 4); reflexivity
  end.
Defined.

(** C5, as stated, fails: with sample size [10], batch size [3, 4] and
    event size [2], the mask of size [10, 3, 4] does not multiply with the
    component samples of size [10, 3, 4, 2]. *)
Lemma sample_fails_with_event_axis :
  exists md components mix,
    four_way = Ok md /\
    Independent.__init__ (unit_gaussians [3; 4; 2]%nat) 1 = Ok components /\
    Components.batch_shape components = [3; 4]%nat /\
    Components.event_shape components = [2%nat] /\
    MixtureSameFamily.__init__ md components = Ok mix /\
    MixtureSameFamily.sample mix [10%nat] = Err RuntimeError.
Proof.
  eexists. eexists. eexists.
  repeat (split; [reflexivity|]). reflexivity.
Qed.

(** With an empty event size and a mask of exactly three axes the
    formula of C5 fails as well: sample size [10] and batch size [3, 4]
    give a result of size [10, 10, 3]. *)
Lemma sample_three_axes_mask :
  exists md mix t,
    four_way = Ok md /\
    MixtureSameFamily.__init__ md (unit_gaussians [3; 4]%nat) = Ok mix /\
    MixtureSameFamily.sample mix [10%nat] = Ok t /\
    shape t = [10; 10; 3]%nat.
Proof.
  eexists. eexists. eexists.
  repeat (split; [reflexivity|]). reflexivity.
Qed.

Lemma sample_shape_and_value_witness :
  exists md mix t,
    four_way_3_2 = Ok md /\
    MixtureSameFamily.__init__ md (unit_gaussians [3; 2; 4]%nat) = Ok mix /\
    MixtureSameFamily.sample mix [10%nat] = Ok t /\
    shape t = [10; 3; 2]%nat.
Proof.
  evar (md : OneHotCategorical.t).
  assert (Hmd : four_way_3_2 = Ok md) by (unfold md; reflexivity).
  set (mix := MixtureSameFamily.mk md (unit_gaussians [3; 2; 4]%nat) [3; 2; 4]%nat []).
  edestruct (sample_shape_and_value mix [10%nat] [3; 2]%nat 4)
    as (t & Ht & Hts & _);
    [reflexivity | reflexivity | reflexivity | reflexivity | discriminate |].
  exists md, mix, t.
  split; [exact Hmd|]. split; [reflexivity|]. split; [exact Ht | exact Hts].
Defined.

(** C10, as stated, fails: components of batch size [5, 1, 1, 2] turn a
    value of size [1, 1, 1] into log-densities of size [1, 1, 5]. *)
Lemma log_prob_changes_shape :
  exists md mix t,
    equal_weights = Ok md /\
    MixtureSameFamily.__init__ md (unit_gaussians [5; 1; 1; 2]%nat) = Ok mix /\
    MixtureSameFamily.log_prob mix (zeros [1; 1; 1]%nat) = Ok t /\
    shape t = [1; 1; 5]%nat /\
    shape t <> shape (zeros [1; 1; 1]%nat).
Proof.
  eexists. eexists. eexists.
  split; [reflexivity|]. split; [reflexivity|]. split; [reflexivity|].
  split; [reflexivity|]. discriminate.
Qed.

Lemma log_prob_rank_and_shape_witness :
  exists md mix t,
    equal_weights = Ok md /\
    MixtureSameFamily.__init__ md two_gaussians = Ok mix /\
    MixtureSameFamily.log_prob mix (zeros [4%nat]) = Err RuntimeError /\
    MixtureSameFamily.log_prob mix (zeros [2; 3; 4]%nat) = Ok t /\
    shape t = shape (zeros [2; 3; 4]%nat).
Proof.
  evar (md : OneHotCategorical.t).
  assert (Hmd : equal_weights = Ok md) by (unfold md; reflexivity).
  set (mix := MixtureSameFamily.mk md two_gaussians [2%nat] []).
  destruct (proj2 (log_prob_rank_and_shape mix (zeros [2; 3; 4]%nat)) 2 3 4 2)%nat
    as (t & Ht & Hts).
  - reflexivity.
  - reflexivity.
  - reflexivity.
  - intros x Hxs.
    destruct (gaussian_components two_gaussians x 4 2 3 2) as (l & Hl & Hls & _);
      [split; reflexivity | reflexivity | exact Hxs |].
    exists l. split; [exact Hl | exact Hls].
  - exists md, mix, t.
    split; [exact Hmd|]. split; [reflexivity|]. split; [|split; [exact Ht | exact Hts]].
    apply (proj1 (log_prob_rank_and_shape mix (zeros [4%nat]))). discriminate.
Defined.

End Examples.

End MixtureProperties.

(** * Further facts about the engine *)

Module TorchMore.
Import TorchFacts.

(** The enumeration of a size lists exactly the positions in range. *)
Lemma indices_in_range (s : Size) (idx : list nat) :
  In idx (indices s) <-> in_range s idx.
Proof.
  unfold in_range. revert idx; induction s as [|d s IH]; intros idx; simpl.
  - split.
    + intros [<-|[]]. constructor.
    + intros Hr. inversion Hr. left. reflexivity.
  - rewrite in_flat_map. split.
    + intros (i & Hi%in_seq & Hin). apply in_map_iff in Hin as (tl & <- & Htl).
      constructor; [lia | apply IH, Htl].
    + intros Hr. inversion Hr as [|i d' tl s' Hid Htl]; subst.
      exists i. split; [apply in_seq; lia|].
      apply in_map, IH, Htl.
Qed.

Lemma all_spec (p : R -> bool) (t : Tensor) :
  Torch.all p t = true <->
  forall idx, in_range (shape t) idx -> p (data t idx) = true.
Proof.
  unfold Torch.all. rewrite forallb_forall. split.
  - intros Hall idx Hr. apply Hall, indices_in_range, Hr.
  - intros Hall idx Hin. apply Hall, indices_in_range, Hin.
Qed.

(** A broadcast fails only with [RuntimeError], and exactly on sizes with
    two aligned axes that differ and are both not 1. *)
Lemma broadcast_dim_err (x y : nat) (e : error) :
  broadcast_dim x y = Err e ->
  e = RuntimeError /\ negb (x =? 1) && negb (y =? 1) && negb (x =? y) = true.
Proof.
  unfold broadcast_dim.
  destruct (x =? y); [discriminate|].
  destruct (x =? 1); [discriminate|].
  destruct (y =? 1); [discriminate|].
  intros [= <-]. split; reflexivity.
Qed.

Lemma broadcast_rev_err (a b : list nat) (e : error) :
  broadcast_rev a b = Err e ->
  e = RuntimeError /\
  existsb (fun ij => negb (fst ij =? 1) && negb (snd ij =? 1)
                     && negb (fst ij =? snd ij)) (combine a b) = true.
Proof.
  revert b e; induction a as [|x a IH]; intros [|y b] e; simpl; try discriminate.
  destruct (broadcast_rev a b) as [r|e'] eqn:Hr; simpl.
  - destruct (broadcast_dim x y) as [d|e'] eqn:Hd; simpl; [discriminate|].
    intros [= <-]. destruct (broadcast_dim_err _ _ _ Hd) as [-> Hxy].
    rewrite Hxy. split; reflexivity.
  - intros [= <-]. destruct (IH _ _ Hr) as [-> Hab].
    rewrite Hab, orb_true_r. split; reflexivity.
Qed.

Lemma broadcast_shapes_err (a b : Size) (e : error) :
  broadcast_shapes a b = Err e ->
  broadcast_shapes a b = Err RuntimeError /\
  existsb (fun ij => negb (fst ij =? 1) && negb (snd ij =? 1)
                     && negb (fst ij =? snd ij)) (combine (rev a) (rev b)) = true.
Proof.
  unfold broadcast_shapes.
  destruct (broadcast_rev (rev a) (rev b)) as [r|e'] eqn:Hr; [discriminate|].
  intros _. destruct (broadcast_rev_err _ _ _ Hr) as [-> Hab].
  split; [reflexivity | exact Hab].
Qed.

Lemma expandable_rev_app (s l : list nat) : expandable_rev s (s ++ l) = true.
Proof.
  induction s as [|d s IH]; simpl; [reflexivity|].
  rewrite Nat.eqb_refl, IH. reflexivity.
Qed.

(** A size expands to itself with further axes in front. *)
Lemma expandable_prefix (l s : Size) : expandable s (l ++ s) = true.
Proof. unfold expandable. rewrite rev_app_distr. apply expandable_rev_app. Qed.

Lemma expandable_rev_trans (a b c : list nat) :
  expandable_rev a b = true -> expandable_rev b c = true ->
  expandable_rev a c = true.
Proof.
  revert b c; induction a as [|x a IH]; intros [|y b] [|z c]; simpl;
    try reflexivity; try discriminate.
  intros [Hx Ha]%andb_prop [Hy Hb]%andb_prop.
  rewrite (IH _ _ Ha Hb), andb_true_r.
  apply orb_prop in Hx as [Hx|Hx]; apply Nat.eqb_eq in Hx; subst.
  - exact Hy.
  - rewrite orb_true_r. reflexivity.
Qed.

Lemma expandable_trans (a b c : Size) :
  expandable a b = true -> expandable b c = true -> expandable a c = true.
Proof. apply expandable_rev_trans. Qed.

End TorchMore.

(** * Further properties of [Normal_] *)

Module NormalLaws.
Import TorchFacts NormalFacts TorchMore.



(** X2.  With [validate_args=True] the constructor checks the broadcast
    scale against [constraints.positive]: it succeeds, keeping the flag,
    when every scale is positive, and fails with [ValueError] as soon as
    one scale is zero or negative. *)
Theorem init_validates_scale (loc scale : arg) (l s : Tensor) :
  broadcast_all loc scale = Ok (l, s) ->
  ((forall idx, in_range (shape s) idx -> (0 < data s idx)%R) ->
   exists d, Normal_.__init__ loc scale (Some true) = Ok d /\
             Normal_._validate_args d = true /\
             Normal_.loc d = l /\ Normal_.scale d = s) /\
  (forall idx, in_range (shape s) idx -> (data s idx <= 0)%R ->
               Normal_.__init__ loc scale (Some true) = Err ValueError).
Proof.
  intros Hb. unfold Normal_.__init__. rewrite Hb. cbn [bind].
  unfold Distribution.__init__, Normal_.arg_constraints.
  cbn [forallb fst snd andb]. rewrite all_real, andb_true_r. cbn [andb].
  split.
  - intros Hpos.
    assert (Hall : Torch.all (constraints.check constraints.positive) s = true).
    { apply all_spec. intros idx Hr. cbn [constraints.check].
      destruct (Rlt_dec 0 (data s idx)) as [_|Hn]; [reflexivity|].
      exfalso. apply Hn, Hpos, Hr. }
    rewrite Hall. cbn [negb bind]. eexists. repeat split; reflexivity.
  - intros idx Hr Hle.
    destruct (Torch.all (constraints.check constraints.positive) s) eqn:Hall;
      [|reflexivity].
    exfalso. pose proof (proj1 (all_spec _ _) Hall idx Hr) as Hc.
    cbn [constraints.check] in Hc.
    destruct (Rlt_dec 0 (data s idx)) as [Hlt|_]; [lra | discriminate].
Qed.

Lemma init_validates_scale_witness :
  (exists d, Normal_.__init__ (Number 0%R) (Number 1%R) (Some true) = Ok d /\
             Normal_._validate_args d = true) /\
  Normal_.__init__ (Number 0%R) (Number 0%R) (Some true) = Err ValueError.
Proof.
  split.
  - destruct (proj1 (init_validates_scale (Number 0%R) (Number 1%R)
                                          (scalar 0%R) (scalar 1%R) eq_refl))
      as (d & Hd & Hf & _); [intros idx _; simpl; lra|].
    exists d. split; [exact Hd | exact Hf].
  - apply (proj2 (init_validates_scale (Number 0%R) (Number 0%R)
                                       (scalar 0%R) (scalar 0%R) eq_refl) []).
    + constructor.
    + simpl. lra.
Defined.

(** X3.  [expand] succeeds exactly on the sizes the batch size expands to;
    on every other size it fails with [RuntimeError]. *)
Theorem expand_succeeds_iff (d : Normal_.t) (ns : Size) :
  Normal_wf d ->
  ((exists new, Normal_.expand d ns = Ok new) <->
   expandable (Normal_.batch_shape d) ns = true) /\
  (expandable (Normal_.batch_shape d) ns = false ->
   Normal_.expand d ns = Err RuntimeError).
Proof.
  intros Hwf.
  assert (Hfail : expandable (Normal_.batch_shape d) ns = false ->
                  Normal_.expand d ns = Err RuntimeError).
  { intros Hns. destruct Hwf as [Hloc _]. unfold Normal_.expand, Torch.expand.
    rewrite Hloc, Hns. reflexivity. }
  split; [|exact Hfail]. split.
  - intros [new Hnew].
    destruct (expandable (Normal_.batch_shape d) ns) eqn:Hns; [reflexivity|].
    rewrite (Hfail eq_refl) in Hnew. discriminate.
  - intros Hns. eexists. apply (expand_ok d ns Hwf Hns).
Qed.

Lemma expand_succeeds_iff_witness :
  (exists new, Normal_.expand two_gaussians [3; 2]%nat = Ok new) /\
  Normal_.expand two_gaussians [2; 3]%nat = Err RuntimeError.
Proof.
  split.
  - apply (proj1 (expand_succeeds_iff two_gaussians [3; 2]%nat
                                      (conj eq_refl eq_refl))).
    reflexivity.
  - apply (proj2 (expand_succeeds_iff two_gaussians [2; 3]%nat
                                      (conj eq_refl eq_refl))).
    reflexivity.
Defined.

(** X4.  Expanding in two steps is expanding in one: when the batch size
    expands to [a] and [a] expands to [b], [expand a] followed by
    [expand b] and [expand b] alone both succeed, with the same batch size,
    the same validation flag and the same parameters at every position. *)
Theorem expand_twice (d : Normal_.t) (a b : Size) :
  Normal_wf d ->
  expandable (Normal_.batch_shape d) a = true ->
  expandable a b = true ->
  exists d1 d2 d',
    Normal_.expand d a = Ok d1 /\ Normal_.expand d1 b = Ok d2 /\
    Normal_.expand d b = Ok d' /\
    Normal_.batch_shape d2 = Normal_.batch_shape d' /\
    Normal_._validate_args d2 = Normal_._validate_args d' /\
    shape (Normal_.loc d2) = shape (Normal_.loc d') /\
    shape (Normal_.scale d2) = shape (Normal_.scale d') /\
    forall idx, data (Normal_.loc d2) idx = data (Normal_.loc d') idx /\
                data (Normal_.scale d2) idx = data (Normal_.scale d') idx.
Proof.
  intros Hwf Ha Hb.
  pose proof (expand_ok d a Hwf Ha) as H1.
  set (d1 := Normal_.mk _ _ _ _) in H1.
  assert (Hwf1 : Normal_wf d1) by (split; reflexivity).
  pose proof (expand_ok d1 b Hwf1 Hb) as H2.
  pose proof (expand_ok d b Hwf (expandable_trans _ _ _ Ha Hb)) as H'.
  eexists. eexists. eexists.
  split; [exact H1|]. split; [exact H2|]. split; [exact H'|].
  do 4 (split; [reflexivity|]).
  intros idx. cbn [d1 Normal_.loc Normal_.scale Normal_.batch_shape
                   Normal_._batch_shape data].
  rewrite (bidx_compose _ _ _ Ha). split; reflexivity.
Qed.

Lemma expand_twice_witness :
  exists d1 d2 d',
    Normal_.expand two_gaussians [3; 2]%nat = Ok d1 /\
    Normal_.expand d1 [4; 3; 2]%nat = Ok d2 /\
    Normal_.expand two_gaussians [4; 3; 2]%nat = Ok d' /\
    forall idx, data (Normal_.loc d2) idx = data (Normal_.loc d') idx.
Proof.
  destruct (expand_twice two_gaussians [3; 2]%nat [4; 3; 2]%nat)
    as (d1 & d2 & d' & H1 & H2 & H' & _ & _ & _ & _ & Hdata);
    [split; reflexivity | reflexivity | reflexivity |].
  exists d1, d2, d'. split; [exact H1|]. split; [exact H2|]. split; [exact H'|].
  intros idx. apply Hdata.
Defined.

Section WithEngine.
Context `{TensorEngine}.

(** X5.  [rsample] never fails on a well-formed Gaussian: the result has
    the size [sample_shape ++ batch_shape] and is [loc + eps * scale] at
    every position, [eps] being the noise drawn for that size and the
    parameters being read at the batch position. *)
Theorem rsample_shape_and_value (d : Normal_.t) (sample_shape : Size) :
  Normal_wf d ->
  let size := sample_shape ++ Normal_.batch_shape d in
  exists t, Normal_.rsample d sample_shape = Ok t /\
    shape t = size /\
    forall idx, in_range size idx ->
      data t idx
      = (data (Normal_.loc d) (bidx (Normal_.batch_shape d) idx)
         + normal_draw size idx
           * data (Normal_.scale d) (bidx (Normal_.batch_shape d) idx))%R.
Proof.
  intros [Hloc Hscale] size.
  pose proof (expandable_prefix sample_shape (Normal_.batch_shape d)) as He.
  fold size in He.
  unfold Normal_.rsample, Distribution._extended_shape, Normal_.event_shape.
  rewrite app_nil_r. fold size.
  unfold Torch.mul, Torch.add, binop, _standard_normal. cbn [shape].
  rewrite Hscale, (expandable_broadcast _ _ He). cbn [bind shape].
  rewrite Hloc, (expandable_broadcast_l _ _ He). cbn [bind].
  eexists. split; [reflexivity|]. split; [reflexivity|].
  intros idx Hidx. cbn [data shape]. rewrite !(bidx_in_range _ _ Hidx).
  reflexivity.
Qed.

(** X6.  [sample] never fails on a well-formed Gaussian and returns a
    tensor of size [sample_shape ++ batch_shape]. *)
Theorem sample_shape (d : Normal_.t) (sample_shape : Size) :
  Normal_wf d ->
  exists t, Normal_.sample d sample_shape = Ok t /\
            shape t = sample_shape ++ Normal_.batch_shape d.
Proof.
  intros [Hloc Hscale].
  pose proof (expandable_prefix sample_shape (Normal_.batch_shape d)) as He.
  unfold Normal_.sample, Distribution._extended_shape, Normal_.event_shape.
  rewrite app_nil_r. unfold Torch.expand. rewrite Hloc, Hscale, He. cbn [bind].
  unfold Torch.mul, Torch.add, binop, _standard_normal. cbn [shape].
  rewrite (expandable_broadcast _ _ (expandable_refl _)). cbn [bind shape].
  rewrite (expandable_broadcast _ _ (expandable_refl _)). cbn [bind].
  eexists. split; reflexivity.
Qed.

(** X7.  The other round trip: for a Gaussian with positive scales and an
    inverse error function that is a left inverse of the error function,
    [icdf (cdf value)] succeeds and is [value] at every position, for
    every real value that broadcasts against the parameters. *)
Theorem icdf_cdf (d : Normal_.t) (value : Tensor) (s : Size) :
  (forall x, erfinv (erf x) = x) ->
  Normal_wf d ->
  positive_scale d ->
  broadcast_shapes (shape value) (Normal_.batch_shape d) = Ok s ->
  exists q r, Normal_.cdf d value = Ok q /\ Normal_.icdf d q = Ok r /\
    shape r = s /\
    forall idx, in_range s idx -> data r idx = data value (bidx (shape value) idx).
Proof.
  intros Herf Hwf Hpos Hs.
  destruct (broadcast_shapes_expandable _ _ _ Hs) as [Hvs Hbs].
  destruct (cdf_elementwise d value s Hwf Hs) as (q & Hq & Hqs & Hqd).
  assert (Hs' : broadcast_shapes (shape q) (Normal_.batch_shape d) = Ok s)
    by (rewrite Hqs; apply expandable_broadcast, Hbs).
  destruct (icdf_elementwise d q s Hwf Hs') as (r & Hr & Hrs & Hrd).
  exists q, r. split; [exact Hq|]. split; [exact Hr|]. split; [exact Hrs|].
  intros idx Hidx.
  rewrite (Hrd idx Hidx), Hqs, (bidx_in_range _ _ Hidx), (Hqd idx Hidx).
  pose proof (Hpos _ (bidx_expandable_range _ _ _ Hbs Hidx)) as Hsc.
  set (l := data (Normal_.loc d) _) in *.
  set (sc := data (Normal_.scale d) _) in *.
  set (x := data value _) in *.
  assert (H2 : (0 < sqrt 2)%R) by (apply sqrt_lt_R0; lra).
  replace (2 * (0.5 * (1 + erf ((x - l) * / sc / sqrt 2))) - 1)%R
    with (erf ((x - l) * / sc / sqrt 2)) by lra.
  rewrite Herf. field. lra.
Qed.

(** X8.  The median is [loc]: for positive scales, an error function that
    vanishes at 0 and an inverse that vanishes at 0, [cdf loc] is 0.5 at
    every position of the batch and [icdf 0.5] is [loc]. *)
Theorem median_is_loc (d : Normal_.t) :
  erf 0 = 0%R -> erfinv 0 = 0%R ->
  Normal_wf d ->
  positive_scale d ->
  (exists t, Normal_.cdf d (Normal_.loc d) = Ok t /\
     shape t = Normal_.batch_shape d /\
     forall idx, in_range (Normal_.batch_shape d) idx -> data t idx = 0.5%R) /\
  (exists t, Normal_.icdf d (scalar 0.5%R) = Ok t /\
     shape t = Normal_.batch_shape d /\
     forall idx, in_range (Normal_.batch_shape d) idx ->
                 data t idx = data (Normal_.loc d) idx).
Proof.
  intros Herf Hinv Hwf Hpos. split.
  - assert (Hs : broadcast_shapes (shape (Normal_.loc d)) (Normal_.batch_shape d)
                 = Ok (Normal_.batch_shape d))
      by (rewrite (proj1 Hwf); apply expandable_broadcast, expandable_refl).
    destruct (cdf_elementwise d _ _ Hwf Hs) as (t & Ht & Hts & Htd).
    exists t. split; [exact Ht|]. split; [exact Hts|].
    intros idx Hidx. rewrite (Htd idx Hidx), (proj1 Hwf).
    rewrite Rminus_diag. unfold Rdiv. rewrite !Rmult_0_l, Herf. lra.
  - assert (He : expandable (shape (scalar 0.5%R)) (Normal_.batch_shape d) = true)
      by reflexivity.
    pose proof (expandable_broadcast_l _ _ He) as Hs.
    destruct (icdf_elementwise d _ _ Hwf Hs) as (t & Ht & Hts & Htd).
    exists t. split; [exact Ht|]. split; [exact Hts|].
    intros idx Hidx. rewrite (Htd idx Hidx), (bidx_in_range _ _ Hidx).
    cbn [scalar full data].
    replace (2 * 0.5 - 1)%R with 0%R by lra. rewrite Hinv. ring.
Qed.

(** X9.  [cdf] is monotone: for positive scales and an increasing error
    function, two values of the same size with [v1 <= v2] at every
    position have [cdf v1 <= cdf v2] at every position. *)
Theorem cdf_monotone (d : Normal_.t) (v1 v2 : Tensor) (s : Size) :
  (forall x y, (x <= y)%R -> (erf x <= erf y)%R) ->
  Normal_wf d ->
  positive_scale d ->
  shape v1 = shape v2 ->
  broadcast_shapes (shape v1) (Normal_.batch_shape d) = Ok s ->
  (forall idx, in_range (shape v1) idx -> (data v1 idx <= data v2 idx)%R) ->
  exists t1 t2, Normal_.cdf d v1 = Ok t1 /\ Normal_.cdf d v2 = Ok t2 /\
    shape t1 = s /\ shape t2 = s /\
    forall idx, in_range s idx -> (data t1 idx <= data t2 idx)%R.
Proof.
  intros Herf Hwf Hpos Hsh Hs Hle.
  destruct (broadcast_shapes_expandable _ _ _ Hs) as [Hvs Hbs].
  destruct (cdf_elementwise d v1 s Hwf Hs) as (t1 & Ht1 & Hs1 & Hd1).
  assert (Hs2 : broadcast_shapes (shape v2) (Normal_.batch_shape d) = Ok s)
    by (rewrite <- Hsh; exact Hs).
  destruct (cdf_elementwise d v2 s Hwf Hs2) as (t2 & Ht2 & Hs2' & Hd2).
  exists t1, t2. do 4 (split; [assumption|]).
  intros idx Hidx. rewrite (Hd1 idx Hidx), (Hd2 idx Hidx), <- Hsh.
  pose proof (Hpos _ (bidx_expandable_range _ _ _ Hbs Hidx)) as Hsc.
  pose proof (Hle _ (bidx_expandable_range _ _ _ Hvs Hidx)) as Hx.
  set (l := data (Normal_.loc d) _) in *.
  set (sc := data (Normal_.scale d) _) in *.
  set (x1 := data v1 _) in *. set (x2 := data v2 _) in *.
  assert (H2 : (0 < / sqrt 2)%R) by (apply Rinv_0_lt_compat, sqrt_lt_R0; lra).
  assert (Hi : (0 < / sc)%R) by (apply Rinv_0_lt_compat, Hsc).
  assert (Hz : ((x1 - l) * / sc / sqrt 2 <= (x2 - l) * / sc / sqrt 2)%R).
  { unfold Rdiv. apply Rmult_le_compat_r; [lra|].
    apply Rmult_le_compat_r; lra. }
  pose proof (Herf _ _ Hz). lra.
Qed.

(** X12.  A value whose size does not broadcast against the batch size is
    rejected by [log_prob], [cdf] and [icdf] alike: with [ValueError] by
    the validation when the flag is set, and with [RuntimeError] by the
    arithmetic when it is not. *)
Theorem unbroadcastable_value_fails (d : Normal_.t) (value : Tensor) (e : error) :
  Normal_wf d ->
  broadcast_shapes (shape value) (Normal_.batch_shape d) = Err e ->
  let raised := if Normal_._validate_args d then ValueError else RuntimeError in
  Normal_.log_prob d value = Err raised /\
  Normal_.cdf d value = Err raised /\
  Normal_.icdf d value = Err raised.
Proof.
  intros [Hloc Hscale] He raised.
  destruct (broadcast_shapes_err _ _ _ He) as [Hr Hex].
  unfold Normal_.log_prob, Normal_.cdf, Normal_.icdf, Normal_.validate.
  subst raised. destruct (Normal_._validate_args d).
  - unfold Distribution._validate_sample, Normal_.event_shape, dim.
    cbn [length]. rewrite Nat.sub_0_r, skipn_all, app_nil_r, Hex.
    repeat split; reflexivity.
  - cbn [bind]. unfold Torch.sub, Torch.mul, binop. cbn [shape Torch.map].
    rewrite Hloc, Hscale, Hr, broadcast_shapes_comm, Hr.
    repeat split; reflexivity.
Qed.

End WithEngine.

(** X10.  [log_prob] is largest at [loc]: for positive scales it is at most
    [- log scale - 0.5 * log (2 pi)] at every position, with equality
    where the value is [loc]. *)
Theorem log_prob_maximal_at_loc (d : Normal_.t) (value : Tensor) (s : Size) :
  Normal_wf d ->
  positive_scale d ->
  broadcast_shapes (shape value) (Normal_.batch_shape d) = Ok s ->
  exists t, Normal_.log_prob d value = Ok t /\ shape t = s /\
    forall idx, in_range s idx ->
      let loc := data (Normal_.loc d) (bidx (Normal_.batch_shape d) idx) in
      let scale := data (Normal_.scale d) (bidx (Normal_.batch_shape d) idx) in
      (data t idx <= - ln scale - 0.5 * ln (2 * PI))%R /\
      (data value (bidx (shape value) idx) = loc ->
       data t idx = (- ln scale - 0.5 * ln (2 * PI))%R).
Proof.
  intros Hwf Hpos Hs.
  destruct (log_prob_elementwise d value s Hwf Hs) as (t & Ht & Hts & Htd).
  exists t. split; [exact Ht|]. split; [exact Hts|].
  intros idx Hidx loc scale. rewrite (Htd idx Hidx). fold loc scale.
  unfold normal_log_density. split.
  - pose proof (pow2_ge_0 ((data value (bidx (shape value) idx) - loc) / scale)).
    lra.
  - intros ->. rewrite Rminus_diag. unfold Rdiv. rewrite Rmult_0_l. lra.
Qed.

(** X11.  The exponential-family accessors agree with [log_prob]: for
    positive scales, [_natural_params] and [_log_normalizer] of them
    succeed with the batch size, and at every position
    [log_prob value = eta1 * value + eta2 * value^2 - A], the carrier
    measure being 0. *)
Theorem exponential_family_form (d : Normal_.t) (value : Tensor) (s : Size) :
  Normal_wf d ->
  positive_scale d ->
  broadcast_shapes (shape value) (Normal_.batch_shape d) = Ok s ->
  exists eta1 eta2 A t,
    Normal_._natural_params d = Ok (eta1, eta2) /\
    Normal_._log_normalizer eta1 eta2 = Ok A /\
    shape eta1 = Normal_.batch_shape d /\ shape eta2 = Normal_.batch_shape d /\
    shape A = Normal_.batch_shape d /\
    Normal_.log_prob d value = Ok t /\
    forall idx, in_range s idx ->
      let b := bidx (Normal_.batch_shape d) idx in
      let x := data value (bidx (shape value) idx) in
      data t idx = (data eta1 b * x + data eta2 b * x ^ 2 - data A b)%R.
Proof.
  intros Hwf Hpos Hs. destruct Hwf as [Hloc Hscale].
  destruct (broadcast_shapes_expandable _ _ _ Hs) as [_ Hbs].
  destruct (log_prob_elementwise d value s (conj Hloc Hscale) Hs)
    as (t & Ht & Hts & Htd).
  pose proof (expandable_broadcast _ _ (expandable_refl (Normal_.batch_shape d)))
    as Hbb.
  unfold Normal_._natural_params, Normal_._log_normalizer,
    Torch.div, Torch.add, binop.
  cbn [shape Torch.map]. rewrite Hloc, Hscale, Hbb. cbn [bind shape Torch.map].
  eexists. eexists. eexists. exists t.
  split; [reflexivity|]. cbn [shape Torch.map]. rewrite Hscale, Hbb.
  cbn [bind shape]. rewrite Hbb. cbn [bind].
  split; [reflexivity|]. do 3 (split; [reflexivity|]).
  split; [exact Ht|].
  intros idx Hidx. rewrite (Htd idx Hidx).
  pose proof (bidx_expandable_range _ _ _ Hbs Hidx) as Hb.
  set (b := bidx (Normal_.batch_shape d) idx) in *.
  set (x := data value (bidx (shape value) idx)).
  pose proof (Hpos _ Hb) as Hsc.
  cbn [data Torch.map]. rewrite !(bidx_in_range _ _ Hb).
  set (l := data (Normal_.loc d) b). set (sc := data (Normal_.scale d) b) in *.
  unfold normal_log_density.
  replace (-0.5)%R with (- / 2)%R by lra.
  replace (-0.25)%R with (- / 4)%R by lra.
  replace 0.5%R with (/ 2)%R by lra.
  replace (- PI / (- / 2 * / sc ^ 2))%R with ((2 * PI) * (sc * sc))%R
    by (field; lra).
  pose proof PI_RGT_0 as Hpi.
  rewrite (ln_mult (2 * PI) (sc * sc)) by nra.
  rewrite (ln_mult sc sc) by exact Hsc.
  field. lra.
Qed.

Lemma sigmoid_left_inverse (x : R) : sigmoid_inv (sigmoid x) = x.
Proof.
  unfold sigmoid, sigmoid_inv.
  assert (Hpos : (0 < 1 + x ^ 2)%R) by nra.
  pose proof (sqrt_lt_R0 _ Hpos) as Ha.
  pose proof (sqrt_sqrt (1 + x ^ 2) (Rlt_le _ _ Hpos)) as Haa.
  set (a := sqrt (1 + x ^ 2)) in *.
  replace (1 - (x / a) ^ 2)%R with ((/ a) ^ 2)%R.
  - rewrite sqrt_pow2 by (left; apply Rinv_0_lt_compat, Ha).
    field. lra.
  - field_simplify; [|lra|lra]. f_equal. nra.
Qed.

Lemma sigmoid_zero : sigmoid 0 = 0%R.
Proof. unfold sigmoid, Rdiv. apply Rmult_0_l. Qed.

Lemma sigmoid_inv_zero : sigmoid_inv 0 = 0%R.
Proof. unfold sigmoid_inv, Rdiv. apply Rmult_0_l. Qed.

Lemma sigmoid_increasing (x y : R) : (x <= y)%R -> (sigmoid x <= sigmoid y)%R.
Proof.
  intros Hxy. unfold sigmoid.
  assert (Hx : (0 < 1 + x ^ 2)%R) by nra.
  assert (Hy : (0 < 1 + y ^ 2)%R) by nra.
  pose proof (sqrt_lt_R0 _ Hx) as Ha.
  pose proof (sqrt_lt_R0 _ Hy) as Hb.
  pose proof (sqrt_sqrt _ (Rlt_le _ _ Hx)) as Haa.
  pose proof (sqrt_sqrt _ (Rlt_le _ _ Hy)) as Hbb.
  set (a := sqrt (1 + x ^ 2)) in *. set (b := sqrt (1 + y ^ 2)) in *.
  assert (Hcross : (x * b <= y * a)%R).
  { destruct (Rle_dec 0 x) as [H0x|Hx0].
    - assert (Hsq : ((x * b) * (x * b) <= (y * a) * (y * a))%R).
      { replace ((x * b) * (x * b))%R with (x ^ 2 * (b * b))%R by ring.
        replace ((y * a) * (y * a))%R with (y ^ 2 * (a * a))%R by ring.
        rewrite Haa, Hbb. nra. }
      assert (0 <= x * b)%R by nra. assert (0 <= y * a)%R by nra. nra.
    - destruct (Rle_dec 0 y) as [H0y|Hy0].
      + assert (x * b <= 0)%R by nra. assert (0 <= y * a)%R by nra. lra.
      + assert (Hsq : ((y * a) * (y * a) <= (x * b) * (x * b))%R).
        { replace ((x * b) * (x * b))%R with (x ^ 2 * (b * b))%R by ring.
          replace ((y * a) * (y * a))%R with (y ^ 2 * (a * a))%R by ring.
          rewrite Haa, Hbb. nra. }
        assert (x * b <= 0)%R by nra. assert (y * a <= 0)%R by nra. nra. }
  apply (Rmult_le_reg_r (a * b)); [nra|].
  replace (x / a * (a * b))%R with (x * b)%R by (field; lra).
  replace (y / b * (a * b))%R with (y * a)%R by (field; lra).
  exact Hcross.
Qed.

Lemma rsample_shape_and_value_witness :
  exists t, @Normal_.rsample example_engine two_gaussians [10; 3]%nat = Ok t /\
            shape t = [10; 3; 2]%nat /\
            data t [0; 0; 1]%nat = (1 + 0 * 1)%R.
Proof.
  destruct (@rsample_shape_and_value example_engine two_gaussians [10; 3]%nat)
    as (t & Ht & Hts & Htd); [split; reflexivity|].
  exists t. split; [exact Ht|]. split; [exact Hts|].
  apply (Htd [0; 0; 1]%nat). repeat constructor.
Defined.

Lemma sample_shape_witness :
  exists t, @Normal_.sample example_engine two_gaussians [10; 3]%nat = Ok t /\
            shape t = [10; 3; 2]%nat.
Proof.
  apply (@sample_shape example_engine two_gaussians [10; 3]%nat).
  split; reflexivity.
Defined.

Lemma two_gaussians_positive : positive_scale two_gaussians.
Proof. intros idx _. simpl. lra. Qed.

Lemma icdf_cdf_witness :
  exists q r,
    @Normal_.cdf example_engine two_gaussians (full [1%nat] 3%R) = Ok q /\
    @Normal_.icdf example_engine two_gaussians q = Ok r /\
    shape r = [2%nat] /\
    forall idx, in_range [2%nat] idx -> data r idx = 3%R.
Proof.
  apply (@icdf_cdf example_engine two_gaussians (full [1%nat] 3%R) [2%nat]).
  - exact sigmoid_left_inverse.
  - split; reflexivity.
  - exact two_gaussians_positive.
  - reflexivity.
Defined.

Lemma median_is_loc_witness :
  (exists t, @Normal_.cdf example_engine two_gaussians (Normal_.loc two_gaussians) = Ok t /\
     shape t = [2%nat] /\
     forall idx, in_range [2%nat] idx -> data t idx = 0.5%R) /\
  (exists t, @Normal_.icdf example_engine two_gaussians (scalar 0.5%R) = Ok t /\
     shape t = [2%nat] /\
     forall idx, in_range [2%nat] idx ->
                 data t idx = data (Normal_.loc two_gaussians) idx).
Proof.
  apply (@median_is_loc example_engine two_gaussians).
  - exact sigmoid_zero.
  - exact sigmoid_inv_zero.
  - split; reflexivity.
  - exact two_gaussians_positive.
Defined.

Lemma cdf_monotone_witness :
  exists t1 t2,
    @Normal_.cdf example_engine two_gaussians (full [1%nat] 0%R) = Ok t1 /\
    @Normal_.cdf example_engine two_gaussians (full [1%nat] 1%R) = Ok t2 /\
    shape t1 = [2%nat] /\ shape t2 = [2%nat] /\
    forall idx, in_range [2%nat] idx -> (data t1 idx <= data t2 idx)%R.
Proof.
  apply (@cdf_monotone example_engine two_gaussians
                       (full [1%nat] 0%R) (full [1%nat] 1%R) [2%nat]).
  - exact sigmoid_increasing.
  - split; reflexivity.
  - exact two_gaussians_positive.
  - reflexivity.
  - reflexivity.
  - intros idx _. simpl. lra.
Defined.

Lemma unbroadcastable_value_fails_witness :
  @Normal_.icdf example_engine two_gaussians (zeros [3%nat]) = Err RuntimeError /\
  Normal_.log_prob (Normal_.mk (tensor1 [-1; 1]%R) (full [2%nat] 1%R) [2%nat] true)
                   (zeros [3%nat]) = Err ValueError.
Proof.
  split.
  - apply (@unbroadcastable_value_fails example_engine two_gaussians
                                        (zeros [3%nat]) RuntimeError).
    + split; reflexivity.
    + reflexivity.
  - apply (@unbroadcastable_value_fails example_engine
             (Normal_.mk (tensor1 [-1; 1]%R) (full [2%nat] 1%R) [2%nat] true)
             (zeros [3%nat]) RuntimeError).
    + split; reflexivity.
    + reflexivity.
Defined.

Lemma log_prob_maximal_at_loc_witness :
  exists t, Normal_.log_prob two_gaussians (full [3; 1]%nat 1%R) = Ok t /\
    shape t = [3; 2]%nat /\
    (data t [0; 0]%nat <= - ln 1 - 0.5 * ln (2 * PI))%R /\
    data t [0; 1]%nat = (- ln 1 - 0.5 * ln (2 * PI))%R.
Proof.
  destruct (log_prob_maximal_at_loc two_gaussians (full [3; 1]%nat 1%R) [3; 2]%nat)
    as (t & Ht & Hts & Htd);
    [split; reflexivity | exact two_gaussians_positive | reflexivity |].
  exists t. split; [exact Ht|]. split; [exact Hts|]. split.
  - apply (Htd [0; 0]%nat). repeat constructor.
  - apply (Htd [0; 1]%nat); [repeat constructor | reflexivity].
Defined.

Lemma exponential_family_form_witness :
  exists eta1 eta2 A t,
    Normal_._natural_params two_gaussians = Ok (eta1, eta2) /\
    Normal_._log_normalizer eta1 eta2 = Ok A /\
    Normal_.log_prob two_gaussians (full [3; 1]%nat 1%R) = Ok t /\
    data t [0; 0]%nat
    = (data eta1 [0%nat] * 1 + data eta2 [0%nat] * 1 ^ 2 - data A [0%nat])%R.
Proof.
  destruct (exponential_family_form two_gaussians (full [3; 1]%nat 1%R) [3; 2]%nat)
    as (eta1 & eta2 & A & t & H1 & H2 & _ & _ & _ & Ht & Htd);
    [split; reflexivity | exact two_gaussians_positive | reflexivity |].
  exists eta1, eta2, A, t. split; [exact H1|]. split; [exact H2|]. split; [exact Ht|].
  apply (Htd [0; 0]%nat). repeat constructor.
Defined.

End NormalLaws.

(** * Further properties of [MixtureSameFamily] *)

Module MixtureLaws.
Import TorchFacts NormalFacts MixtureFacts TorchMore.

Lemma logsumexp_singleton (x : R) : logsumexp_list [x] = x.
Proof.
  unfold logsumexp_list. cbn [Rmax_list fold_left List.map Rsum fold_right].
  rewrite Rminus_diag, exp_0, Rplus_0_r, ln_1. ring.
Qed.

(** A sum weighted by a one-hot mask is the selected term. *)
Lemma Rsum_one_hot (f : nat -> R) (c s n : nat) :
  Rsum (List.map (fun m => ((if m =? c then 1 else 0) * f m)%R) (seq s n))
  = if (s <=? c) && (c <? s + n) then f c else 0%R.
Proof.
  revert s; induction n as [|n IH]; intros s.
  - cbn [seq List.map Rsum fold_right]. rewrite Nat.add_0_r.
    destruct (Nat.leb_spec s c), (Nat.ltb_spec c s); try reflexivity. lia.
  - cbn [seq List.map Rsum fold_right]. fold (Rsum (List.map
      (fun m => ((if m =? c then 1 else 0) * f m)%R) (seq (S s) n))).
    rewrite IH.
    destruct (Nat.eqb_spec s c) as [->|Hsc].
    + destruct (Nat.leb_spec (S c) c); [lia|].
      destruct (Nat.leb_spec c c); [|lia].
      destruct (Nat.ltb_spec c (c + S n)); [|lia]. cbn [andb]. ring.
    + destruct (Nat.leb_spec (S s) c), (Nat.leb_spec s c),
        (Nat.ltb_spec c (S s + n)), (Nat.ltb_spec c (s + S n));
        cbn [andb]; try lia; ring.
Qed.

(** Weights that are not negative keep a weighted sum between the bounds
    of its terms. *)
Lemma Rsum_weighted_bounds (w f : nat -> R) (lo hi : R) (l : list nat) :
  (forall m, In m l -> (0 <= w m)%R /\ (lo <= f m <= hi)%R) ->
  (lo * Rsum (List.map w l) <= Rsum (List.map (fun m => w m * f m) l)
   <= hi * Rsum (List.map w l))%R.
Proof.
  induction l as [|m l IH]; intros Hl; cbn [List.map Rsum fold_right].
  - lra.
  - fold (Rsum (List.map w l)). fold (Rsum (List.map (fun m => w m * f m)%R l)).
    destruct (Hl m (or_introl eq_refl)) as [Hw Hf].
    assert (IH' := IH (fun k Hk => Hl k (or_intror Hk))). nra.
Qed.

Section WithCollaborators.
Context {M D : Type} `{Mixing.t M} `{Components.t D}.

(** X13.  A mixture whose component distribution has an empty batch size
    has no component axis: [log_prob] of every value with three axes fails
    with [IndexError] at [self.batch_shape[-1]]. *)
Theorem log_prob_without_component_axis (mix : MixtureSameFamily.t M D)
        (value : Tensor) :
  length (shape value) = 3%nat ->
  MixtureSameFamily.batch_shape mix = [] ->
  MixtureSameFamily.log_prob mix value = Err IndexError.
Proof.
  intros Hrank Hbs.
  unfold MixtureSameFamily.log_prob, permute, dim. rewrite Hrank.
  cbn [length Nat.eqb is_permutation andb forallb seq existsb orb bind].
  rewrite Hbs. reflexivity.
Qed.

(** X14.  A mixture over a single component: the log-sum-exp runs over one
    term, so [log_prob] is the logit plus the log-density of that
    component at every position. *)
Theorem log_prob_single_component (mix : MixtureSameFamily.t M D) (value : Tensor)
        (a b c : nat) (logp : nat -> nat -> R -> R) :
  let logits := Mixing.logits (MixtureSameFamily.mixture_distribution mix) in
  shape value = [a; b; c]%nat ->
  MixtureSameFamily.last_dim (MixtureSameFamily.batch_shape mix) = Ok 1%nat ->
  expandable (shape logits) [a; b; 1]%nat = true ->
  (forall x,
      shape x = [c; a; b; 1]%nat ->
      (forall k i j, (k < c)%nat -> (i < a)%nat -> (j < b)%nat ->
                     data x [k; i; j; 0]%nat = data value [i; j; k]%nat) ->
      exists l,
        Components.log_prob (MixtureSameFamily.components_distribution mix) x = Ok l /\
        shape l = [c; a; b; 1]%nat /\
        forall k i j, (k < c)%nat -> (i < a)%nat -> (j < b)%nat ->
                      data l [k; i; j; 0]%nat = logp i j (data value [i; j; k]%nat)) ->
  exists t, MixtureSameFamily.log_prob mix value = Ok t /\
    shape t = [a; b; c]%nat /\
    forall i j k, (i < a)%nat -> (j < b)%nat -> (k < c)%nat ->
      data t [i; j; k]%nat
      = (data logits (bidx (shape logits) [i; j; 0]%nat)
         + logp i j (data value [i; j; k]%nat))%R.
Proof.
  intros logits Hv Hn Hlg Hcomp.
  destruct (log_prob_pad mix value a b c 1 Hv Hn) as (x & Hxs & Hxd & Hrun).
  destruct (Hcomp x Hxs) as (l & Hl & Hls & Hld).
  { intros k i j Hk Hi Hj. apply Hxd; [assumption..|lia]. }
  destruct (log_prob_reduce mix l a b c 1 Hls Hlg) as (t & Ht & Hts & Htd).
  exists t. split; [rewrite Hrun, Hl; exact Ht|]. split; [exact Hts|].
  intros i j k Hi Hj Hk. rewrite (Htd i j k Hi Hj Hk).
  cbn [seq List.map]. rewrite logsumexp_singleton, (Hld k i j Hk Hi Hj).
  reflexivity.
Qed.

(** X15.  A mixture density is a weighted mean of the component
    densities: when the weights [exp logit] of a batch element sum to 1,
    [log_prob] at a position lies between any lower and upper bound of the
    component log-densities there. *)
Theorem log_prob_between_components (mix : MixtureSameFamily.t M D) (value : Tensor)
        (a b c n : nat) (logp : nat -> nat -> nat -> R -> R) :
  let logits := Mixing.logits (MixtureSameFamily.mixture_distribution mix) in
  let logit i j m := data logits (bidx (shape logits) [i; j; m]%nat) in
  shape value = [a; b; c]%nat ->
  MixtureSameFamily.last_dim (MixtureSameFamily.batch_shape mix) = Ok n ->
  (0 < n)%nat ->
  expandable (shape logits) [a; b; n]%nat = true ->
  (forall i j, (i < a)%nat -> (j < b)%nat ->
               Rsum (List.map (fun m => exp (logit i j m)) (seq 0 n)) = 1%R) ->
  (forall x,
      shape x = [c; a; b; n]%nat ->
      (forall k i j m, (k < c)%nat -> (i < a)%nat -> (j < b)%nat -> (m < n)%nat ->
                       data x [k; i; j; m]%nat = data value [i; j; k]%nat) ->
      exists l,
        Components.log_prob (MixtureSameFamily.components_distribution mix) x = Ok l /\
        shape l = [c; a; b; n]%nat /\
        forall k i j m, (k < c)%nat -> (i < a)%nat -> (j < b)%nat -> (m < n)%nat ->
                        data l [k; i; j; m]%nat = logp i j m (data value [i; j; k]%nat)) ->
  exists t, MixtureSameFamily.log_prob mix value = Ok t /\
    forall i j k lo hi, (i < a)%nat -> (j < b)%nat -> (k < c)%nat ->
      (forall m, (m < n)%nat ->
                 (lo <= logp i j m (data value [i; j; k]%nat) <= hi)%R) ->
      (lo <= data t [i; j; k]%nat <= hi)%R.
Proof.
  intros logits logit Hv Hn Hpos Hlg Hnorm Hcomp.
  destruct (log_prob_pad mix value a b c n Hv Hn) as (x & Hxs & Hxd & Hrun).
  destruct (Hcomp x Hxs Hxd) as (l & Hl & Hls & Hld).
  destruct (log_prob_reduce mix l a b c n Hls Hlg) as (t & Ht & Hts & Htd).
  exists t. split; [rewrite Hrun, Hl; exact Ht|].
  intros i j k lo hi Hi Hj Hk Hb.
  pose proof (Htd i j k Hi Hj Hk) as Hd. fold logits in Hd. rewrite Hd.
  rewrite logsumexp_list_spec by (destruct n; [lia | discriminate]).
  rewrite List.map_map. cbv beta.
  set (xv := data value [i; j; k]%nat) in *.
  assert (Hsum : Rsum (List.map
            (fun m => exp (data logits (bidx (shape logits) [i; j; m]%nat)
                           + data l [k; i; j; m]%nat)) (seq 0 n))
          = Rsum (List.map (fun m => (exp (logit i j m) * exp (logp i j m xv))%R)
                           (seq 0 n))).
  { f_equal. apply map_ext_in. intros m Hm%in_seq.
    rewrite (Hld k i j m) by lia. apply exp_plus. }
  rewrite Hsum.
  destruct (Rsum_weighted_bounds (fun m => exp (logit i j m))
              (fun m => exp (logp i j m xv)) (exp lo) (exp hi) (seq 0 n))
    as [Hlo Hhi].
  { intros m Hm%in_seq. split; [left; apply exp_pos|].
    destruct (Hb m) as [H1 H2]; [lia|].
    split.
    - destruct H1 as [H1| ->]; [left; apply exp_increasing, H1 | right; reflexivity].
    - destruct H2 as [H2|H2]; [left; apply exp_increasing, H2 | right; rewrite H2; reflexivity]. }
  rewrite (Hnorm i j Hi Hj), Rmult_1_r in Hlo, Hhi.
  clear Hsum.
  set (S := Rsum (List.map (fun m => (exp (logit i j m) * exp (logp i j m xv))%R)
                           (seq 0 n))) in *.
  assert (HS : (0 < S)%R) by (pose proof (exp_pos lo); lra).
  split.
  - rewrite <- (ln_exp lo). destruct Hlo as [Hlo|Hlo].
    + left. apply ln_increasing; [apply exp_pos | exact Hlo].
    + right. rewrite Hlo. reflexivity.
  - rewrite <- (ln_exp hi). destruct Hhi as [Hhi|Hhi].
    + left. apply ln_increasing; [exact HS | exact Hhi].
    + right. rewrite Hhi. reflexivity.
Qed.

(** X17.  A component-axis mismatch is caught by [log_prob]: when the
    mixture distribution has [k] outcomes, the components have a last
    batch axis of [n], the two differ and neither is 1, [log_prob] of a
    value with three axes fails with [RuntimeError] in the addition of
    logits and component log-densities. *)
Theorem log_prob_detects_mismatch (mix : MixtureSameFamily.t M D) (value : Tensor)
        (a b c n k : nat) (pre : Size) :
  shape value = [a; b; c]%nat ->
  MixtureSameFamily.last_dim (MixtureSameFamily.batch_shape mix) = Ok n ->
  shape (Mixing.logits (MixtureSameFamily.mixture_distribution mix)) = pre ++ [k] ->
  k <> n -> k <> 1%nat -> n <> 1%nat ->
  (forall x, shape x = [c; a; b; n]%nat ->
             exists l,
               Components.log_prob (MixtureSameFamily.components_distribution mix) x
               = Ok l /\ shape l = [c; a; b; n]%nat) ->
  MixtureSameFamily.log_prob mix value = Err RuntimeError.
Proof.
  intros Hv Hn Hlg Hkn Hk1 Hn1 Hcomp.
  destruct (log_prob_pad mix value a b c n Hv Hn) as (x & Hxs & _ & Hrun).
  destruct (Hcomp x Hxs) as (l & Hl & Hls).
  rewrite Hrun, Hl. cbn [bind]. rewrite (permute_1230 l c a b n Hls). cbn [bind].
  unfold Torch.add, binop. rewrite unsqueeze_last_shape, Hlg. cbn [shape].
  unfold broadcast_shapes. rewrite !rev_app_distr. cbn [rev app broadcast_rev].
  assert (Hd : broadcast_dim k n = Err RuntimeError).
  { unfold broadcast_dim.
    destruct (Nat.eqb_spec k n); [contradiction|].
    destruct (Nat.eqb_spec k 1); [contradiction|].
    destruct (Nat.eqb_spec n 1); [contradiction|reflexivity]. }
  destruct (broadcast_rev (rev pre) [b; a]%nat) as [r|e] eqn:Hr.
  - cbn [bind]. rewrite Hd. reflexivity.
  - destruct (broadcast_rev_err _ _ _ Hr) as [-> _]. reflexivity.
Qed.

(** The run of [sample] when mask and component samples have the same
    size, of rank other than three. *)
Lemma sample_run (mix : MixtureSameFamily.t M D)
      (sample_shape batch : Size) (n : nat) (mask comps : Tensor) :
  Mixing.sample (MixtureSameFamily.mixture_distribution mix) sample_shape = Ok mask ->
  Components.rsample (MixtureSameFamily.components_distribution mix) sample_shape
  = Ok comps ->
  shape mask = sample_shape ++ batch ++ [n] ->
  shape comps = sample_shape ++ batch ++ [n] ->
  length (sample_shape ++ batch ++ [n]) <> 3%nat ->
  MixtureSameFamily.sample mix sample_shape
  = Ok (mkTensor (sample_shape ++ batch)
          (fun idx => Rsum (List.map
             (fun m => (data mask (bidx (shape mask) (idx ++ [m]))
                        * data comps (bidx (shape comps) (idx ++ [m])))%R)
             (seq 0 n)))).
Proof.
  intros Hmask Hcomps Hms Hcs Hrank.
  unfold MixtureSameFamily.sample. rewrite Hmask. cbn [bind].
  rewrite Hms. apply Nat.eqb_neq in Hrank. rewrite Hrank, Hcomps. cbn [bind].
  unfold Torch.mul, binop. rewrite Hms, Hcs.
  rewrite (expandable_broadcast _ _ (expandable_refl _)). cbn [bind].
  rewrite app_assoc, sum_last_snoc. reflexivity.
Qed.

(** X16.  With a one-hot mask [sample] returns the sample of the selected
    component: where the mask of a position is 1 at component [c] and 0 at
    the others, the result there is the component sample at [c]. *)
Theorem sample_selects_component (mix : MixtureSameFamily.t M D)
        (sample_shape batch : Size) (n : nat) (mask comps : Tensor) :
  Mixing.sample (MixtureSameFamily.mixture_distribution mix) sample_shape = Ok mask ->
  Components.rsample (MixtureSameFamily.components_distribution mix) sample_shape
  = Ok comps ->
  shape mask = sample_shape ++ batch ++ [n] ->
  shape comps = sample_shape ++ batch ++ [n] ->
  length (sample_shape ++ batch ++ [n]) <> 3%nat ->
  exists t, MixtureSameFamily.sample mix sample_shape = Ok t /\
    forall idx c, in_range (sample_shape ++ batch) idx -> (c < n)%nat ->
      (forall m, (m < n)%nat ->
                 data mask (idx ++ [m]) = if m =? c then 1%R else 0%R) ->
      data t idx = data comps (idx ++ [c]).
Proof.
  intros Hmask Hcomps Hms Hcs Hrank.
  rewrite (sample_run mix sample_shape batch n mask comps Hmask Hcomps Hms Hcs Hrank).
  eexists. split; [reflexivity|].
  intros idx c Hidx Hc Hhot. cbn [data].
  transitivity (Rsum (List.map
                  (fun m => ((if m =? c then 1 else 0) * data comps (idx ++ [m]))%R)
                  (seq 0 n))).
  - f_equal. apply map_ext_in. intros m [_ Hm]%in_seq. cbn [Nat.add] in Hm.
    pose proof (in_range_snoc _ _ n m Hidx Hm) as Hr.
    rewrite Hms, Hcs, app_assoc, (bidx_in_range _ _ Hr), (Hhot m Hm). reflexivity.
  - rewrite (Rsum_one_hot (fun m => data comps (idx ++ [m])) c 0 n).
    cbn [Nat.leb Nat.add andb]. apply Nat.ltb_lt in Hc. rewrite Hc. reflexivity.
Qed.

(** X18.  [sample] detects a trailing-axis mismatch: when the last axis of
    the mask has dimension [k], the last axis of the component samples has
    dimension [n], the two differ and neither is 1, the multiplication
    fails with [RuntimeError]. *)
Theorem sample_detects_mismatch (mix : MixtureSameFamily.t M D)
        (sample_shape pm pc : Size) (k n : nat) (mask comps : Tensor) :
  Mixing.sample (MixtureSameFamily.mixture_distribution mix) sample_shape = Ok mask ->
  Components.rsample (MixtureSameFamily.components_distribution mix) sample_shape
  = Ok comps ->
  shape mask = pm ++ [k] ->
  shape comps = pc ++ [n] ->
  k <> n -> k <> 1%nat -> n <> 1%nat ->
  MixtureSameFamily.sample mix sample_shape = Err RuntimeError.
Proof.
  intros Hmask Hcomps Hms Hcs Hkn Hk1 Hn1.
  assert (Hd : broadcast_dim k n = Err RuntimeError).
  { unfold broadcast_dim.
    destruct (Nat.eqb_spec k n); [contradiction|].
    destruct (Nat.eqb_spec k 1); [contradiction|].
    destruct (Nat.eqb_spec n 1); [contradiction|reflexivity]. }
  assert (Hfail : forall p, broadcast_shapes (p ++ [k]) (pc ++ [n]) = Err RuntimeError).
  { intros p. unfold broadcast_shapes. rewrite !rev_app_distr.
    cbn [rev app broadcast_rev].
    destruct (broadcast_rev (rev p) (rev pc)) as [r|e] eqn:Hr.
    - cbn [bind]. rewrite Hd. reflexivity.
    - destruct (broadcast_rev_err _ _ _ Hr) as [-> _]. reflexivity. }
  unfold MixtureSameFamily.sample. rewrite Hmask. cbn [bind]. rewrite Hcomps.
  cbn [bind]. unfold Torch.mul, binop.
  destruct (length (shape mask) =? 3) eqn:Hrank.
  - apply Nat.eqb_eq in Hrank. rewrite Hms, length_app in Hrank. cbn [length] in Hrank.
    destruct pm as [|s [|d [|x pm]]]; cbn [length] in Hrank; try lia.
    unfold unsqueeze. cbn [shape]. rewrite Hms, Hcs. cbn [app firstn skipn].
    change [s; 1; d; k]%nat with ([s; 1; d] ++ [k])%nat.
    rewrite Hfail. reflexivity.
  - rewrite Hms, Hcs, Hfail. reflexivity.
Qed.

End WithCollaborators.

Lemma exp_half_ln (y : R) : (0 < y)%R -> exp (0.5 * ln y) = sqrt y.
Proof.
  intros Hy. symmetry. apply sqrt_lem_1.
  - lra.
  - left. apply exp_pos.
  - rewrite <- exp_plus. replace (0.5 * ln y + 0.5 * ln y)%R with (ln y) by lra.
    apply exp_ln, Hy.
Qed.

(** The exponential of the Gaussian log-density is the Gaussian density. *)
Lemma exp_normal_log_density (l s x : R) :
  (0 < s)%R ->
  exp (normal_log_density l s x)
  = (/ (s * sqrt (2 * PI)) * exp (- ((x - l) / s) ^ 2 / 2))%R.
Proof.
  intros Hs. unfold normal_log_density.
  pose proof PI_RGT_0 as Hpi.
  assert (Hq : (0 < sqrt (2 * PI))%R) by (apply sqrt_lt_R0; lra).
  replace (-0.5 * ((x - l) / s) ^ 2 - ln s - 0.5 * ln (2 * PI))%R
    with (- ((x - l) / s) ^ 2 / 2 + (- ln s + - (0.5 * ln (2 * PI))))%R by lra.
  rewrite !exp_plus, !exp_Ropp, exp_ln by exact Hs.
  rewrite exp_half_ln by lra.
  rewrite Rinv_mult. ring.
Qed.

Section Gaussians.
Context `{TensorEngine} {M : Type} `{Mixing.t M}.

(** Gaussian components whose batch size expands to the padded size return
    log-densities of the padded size. *)
Lemma gaussian_log_densities (d : Normal_.t) (x : Tensor) (c a b n : nat) :
  Normal_wf d ->
  expandable (Normal_.batch_shape d) [c; a; b; n]%nat = true ->
  shape x = [c; a; b; n]%nat ->
  exists l, Components.log_prob d x = Ok l /\ shape l = [c; a; b; n]%nat /\
    forall k i j m, (k < c)%nat -> (i < a)%nat -> (j < b)%nat -> (m < n)%nat ->
      data l [k; i; j; m]%nat
      = normal_log_density
          (data (Normal_.loc d) (bidx (Normal_.batch_shape d) [k; i; j; m]%nat))
          (data (Normal_.scale d) (bidx (Normal_.batch_shape d) [k; i; j; m]%nat))
          (data x [k; i; j; m]%nat).
Proof.
  intros Hwf Hbs Hxs.
  assert (Hb : broadcast_shapes (shape x) (Normal_.batch_shape d) = Ok [c; a; b; n]%nat)
    by (rewrite Hxs; apply expandable_broadcast, Hbs).
  destruct (log_prob_elementwise d x _ Hwf Hb) as (l & Hl & Hls & Hld).
  exists l. split; [exact Hl|]. split; [exact Hls|].
  intros k i j m Hk Hi Hj Hm.
  assert (Hr : in_range [c; a; b; n]%nat [k; i; j; m]%nat)
    by (repeat constructor; assumption).
  rewrite (Hld _ Hr), Hxs, (bidx_in_range _ _ Hr). reflexivity.
Qed.

(** X19.  A mixture of Gaussians: with [Normal_] components of positive
    scales and batch size [a, b, n], and logits that broadcast into
    [a, b, n], the constructor succeeds and [log_prob] of a value of size
    [a, b, c] is, at [i, j, k], the logarithm of the sum over the
    components [m] of the weight [exp logit] times the Gaussian density
    [exp (- ((x - loc) / scale)^2 / 2) / (scale * sqrt (2 pi))] at
    [x = value[i, j, k]]. *)
Theorem gaussian_mixture_log_prob (md : M) (d : Normal_.t) (value : Tensor)
        (a b c n : nat) :
  Normal_wf d ->
  positive_scale d ->
  Normal_.batch_shape d = [a; b; n]%nat ->
  (0 < n)%nat ->
  shape value = [a; b; c]%nat ->
  expandable (shape (Mixing.logits md)) [a; b; n]%nat = true ->
  exists mix t,
    MixtureSameFamily.__init__ md d = Ok mix /\
    MixtureSameFamily.log_prob mix value = Ok t /\
    shape t = [a; b; c]%nat /\
    forall i j k, (i < a)%nat -> (j < b)%nat -> (k < c)%nat ->
      data t [i; j; k]%nat
      = ln (Rsum (List.map
           (fun m =>
              let weight := exp (data (Mixing.logits md)
                                      (bidx (shape (Mixing.logits md)) [i; j; m]%nat)) in
              let loc := data (Normal_.loc d) [i; j; m]%nat in
              let scale := data (Normal_.scale d) [i; j; m]%nat in
              let x := data value [i; j; k]%nat in
              (weight * (/ (scale * sqrt (2 * PI))
                         * exp (- ((x - loc) / scale) ^ 2 / 2)))%R)
           (seq 0 n))).
Proof.
  intros Hwf Hpos Hbs Hn Hv Hlg.
  set (mix := MixtureSameFamily.mk md d (Normal_.batch_shape d) []).
  assert (Hlast : MixtureSameFamily.last_dim (MixtureSameFamily.batch_shape mix) = Ok n)
    by (cbn [mix MixtureSameFamily.batch_shape MixtureSameFamily._batch_shape];
        rewrite Hbs; reflexivity).
  assert (Hexp : expandable (Normal_.batch_shape d) [c; a; b; n]%nat = true)
    by (rewrite Hbs; apply (expandable_prefix [c] [a; b; n]%nat)).
  destruct (log_prob_pad mix value a b c n Hv Hlast) as (x & Hxs & Hxd & Hrun).
  destruct (gaussian_log_densities d x c a b n Hwf Hexp Hxs) as (l & Hl & Hls & Hld).
  destruct (log_prob_reduce mix l a b c n Hls Hlg) as (t & Ht & Hts & Htd).
  exists mix, t. split; [reflexivity|].
  split; [rewrite Hrun; cbn [mix MixtureSameFamily.components_distribution];
          rewrite Hl; exact Ht|].
  split; [exact Hts|].
  intros i j k Hi Hj Hk. rewrite (Htd i j k Hi Hj Hk).
  rewrite logsumexp_list_spec by (destruct n; [lia | discriminate]).
  rewrite List.map_map. f_equal. f_equal. apply map_ext_in.
  intros m [_ Hm]%in_seq. cbn [Nat.add] in Hm. cbv zeta.
  cbn [mix MixtureSameFamily.mixture_distribution].
  rewrite exp_plus. f_equal.
  rewrite (Hld k i j m Hk Hi Hj Hm), (Hxd k i j m Hk Hi Hj Hm), Hbs.
  assert (Hr : in_range [a; b; n]%nat [i; j; m]%nat) by (repeat constructor; assumption).
  assert (Hbidx : bidx [a; b; n]%nat [k; i; j; m]%nat = [i; j; m]%nat).
  { change [k; i; j; m]%nat with ([k] ++ [i; j; m])%nat.
    unfold bidx. rewrite rev_app_distr.
    pose proof (bidx_in_range _ _ Hr) as Hin. unfold bidx in Hin.
    cbn [rev app] in *. cbn [bidx_rev] in *. exact Hin. }
  rewrite Hbidx. apply exp_normal_log_density.
  apply Hpos. rewrite Hbs. exact Hr.
Qed.

End Gaussians.

Section Examples.
#[local] Existing Instance example_engine.

Lemma log_prob_without_component_axis_witness :
  exists md mix,
    three_way = Ok md /\
    MixtureSameFamily.__init__ md validated_gaussian = Ok mix /\
    MixtureSameFamily.log_prob mix (zeros [1; 1; 1]%nat) = Err IndexError.
Proof.
  evar (md : OneHotCategorical.t).
  assert (Hmd : three_way = Ok md) by (unfold md; reflexivity).
  exists md, (MixtureSameFamily.mk md validated_gaussian [] []).
  split; [exact Hmd|]. split; [reflexivity|].
  apply log_prob_without_component_axis; reflexivity.
Defined.

Lemma log_prob_single_component_witness :
  exists md mix t,
    OneHotCategorical.__init__ (zeros [1%nat]) = Ok md /\
    MixtureSameFamily.__init__ md (unit_gaussians [1%nat]) = Ok mix /\
    MixtureSameFamily.log_prob mix (zeros [1; 1; 1]%nat) = Ok t /\
    data t [0; 0; 0]%nat = normal_log_density 0 1 0.
Proof.
  evar (md : OneHotCategorical.t).
  assert (Hmd : OneHotCategorical.__init__ (zeros [1%nat]) = Ok md)
    by (unfold md; reflexivity).
  set (mix := MixtureSameFamily.mk md (unit_gaussians [1%nat]) [1%nat] []).
  destruct (log_prob_single_component mix (zeros [1; 1; 1]%nat) 1 1 1
              (fun _ _ x => normal_log_density 0 1 x))
    as (t & Ht & _ & Htd).
  - reflexivity.
  - reflexivity.
  - reflexivity.
  - intros x Hxs Hxd.
    destruct (MixtureProperties.gaussian_components (unit_gaussians [1%nat]) x 1 1 1 1)
      as (l & Hl & Hls & Hld); [split; reflexivity | reflexivity | exact Hxs |].
    exists l. split; [exact Hl|]. split; [exact Hls|].
    intros k i j Hk Hi Hj. rewrite (Hld k i j 0%nat Hk Hi Hj (Nat.lt_0_succ 0)).
    rewrite (Hxd k i j Hk Hi Hj). reflexivity.
  - exists md, mix, t.
    split; [exact Hmd|]. split; [reflexivity|]. split; [exact Ht|].
    rewrite (Htd 0 0 0)%nat by lia. cbn. rewrite logsumexp_singleton. ring.
Defined.

Lemma log_prob_between_components_witness :
  exists md mix t,
    equal_weights = Ok md /\
    MixtureSameFamily.__init__ md two_gaussians = Ok mix /\
    MixtureSameFamily.log_prob mix (zeros [1; 1; 1]%nat) = Ok t /\
    (normal_log_density 1 1 0 <= data t [0; 0; 0]%nat <= normal_log_density 1 1 0)%R.
Proof.
  evar (md : OneHotCategorical.t).
  assert (Hmd : equal_weights = Ok md) by (unfold md; reflexivity).
  set (mix := MixtureSameFamily.mk md two_gaussians [2%nat] []).
  destruct (log_prob_between_components mix (zeros [1; 1; 1]%nat) 1 1 1 2
              (fun _ _ m x => normal_log_density (nth m [-1; 1]%R 0%R) 1 x))
    as (t & Ht & Htd).
  - reflexivity.
  - reflexivity.
  - lia.
  - reflexivity.
  - intros i j Hi Hj. assert (i = 0 /\ j = 0)%nat as [-> ->] by lia.
    cbn. rewrite MixtureProperties.logsumexp_zero_zero.
    replace (0 - ln 2)%R with (- ln 2)%R by ring.
    rewrite exp_Ropp, exp_ln by lra. lra.
  - intros x Hxs Hxd.
    destruct (MixtureProperties.gaussian_components two_gaussians x 1 1 1 2)
      as (l & Hl & Hls & Hld); [split; reflexivity | reflexivity | exact Hxs |].
    exists l. split; [exact Hl|]. split; [exact Hls|].
    intros k i j m Hk Hi Hj Hm. rewrite (Hld k i j m Hk Hi Hj Hm).
    rewrite (Hxd k i j m Hk Hi Hj Hm).
    assert (k = 0 /\ i = 0 /\ j = 0)%nat as (-> & -> & ->) by lia.
    destruct m as [|[|m]]; [reflexivity | reflexivity | lia].
  - exists md, mix, t.
    split; [exact Hmd|]. split; [reflexivity|]. split; [exact Ht|].
    apply (Htd 0 0 0)%nat; [lia | lia | lia |].
    intros m Hm. destruct m as [|[|m]]; [| |lia]; cbn [nth];
      unfold normal_log_density, zeros, full; cbn [data]; lra.
Defined.

Lemma log_prob_detects_mismatch_witness :
  exists md mix,
    three_way = Ok md /\
    MixtureSameFamily.__init__ md two_gaussians = Ok mix /\
    MixtureSameFamily.log_prob mix (zeros [1; 1; 1]%nat) = Err RuntimeError.
Proof.
  evar (md : OneHotCategorical.t).
  assert (Hmd : three_way = Ok md) by (unfold md; reflexivity).
  set (mix := MixtureSameFamily.mk md two_gaussians [2%nat] []).
  exists md, mix. split; [exact Hmd|]. split; [reflexivity|].
  apply (log_prob_detects_mismatch mix (zeros [1; 1; 1]%nat) 1 1 1 2 3 []).
  - reflexivity.
  - reflexivity.
  - reflexivity.
  - discriminate.
  - discriminate.
  - discriminate.
  - intros x Hxs.
    destruct (MixtureProperties.gaussian_components two_gaussians x 1 1 1 2)
      as (l & Hl & Hls & _); [split; reflexivity | reflexivity | exact Hxs |].
    exists l. split; [exact Hl | exact Hls].
Defined.

Lemma sample_selects_component_witness :
  exists md mix t comps,
    four_way_3_2 = Ok md /\
    MixtureSameFamily.__init__ md (unit_gaussians [3; 2; 4]%nat) = Ok mix /\
    MixtureSameFamily.sample mix [10%nat] = Ok t /\
    Components.rsample (unit_gaussians [3; 2; 4]%nat) [10%nat] = Ok comps /\
    data t [0; 0; 0]%nat = data comps [0; 0; 0; 0]%nat.
Proof.
  evar (md : OneHotCategorical.t).
  assert (Hmd : four_way_3_2 = Ok md) by (unfold md; reflexivity).
  set (mix := MixtureSameFamily.mk md (unit_gaussians [3; 2; 4]%nat) [3; 2; 4]%nat []).
  evar (mask : Tensor).
  assert (Hmask : Mixing.sample md [10%nat] = Ok mask) by (unfold mask; reflexivity).
  evar (comps : Tensor).
  assert (Hcomps : Components.rsample (unit_gaussians [3; 2; 4]%nat) [10%nat] = Ok comps)
    by (unfold comps; reflexivity).
  destruct (sample_selects_component mix [10%nat] [3; 2]%nat 4 mask comps)
    as (t & Ht & Htd);
    [exact Hmask | exact Hcomps | reflexivity | reflexivity | discriminate |].
  exists md, mix, t, comps.
  split; [exact Hmd|]. split; [reflexivity|]. split; [exact Ht|].
  split; [exact Hcomps|].
  apply (Htd [0; 0; 0]%nat 0%nat); [repeat constructor | lia |].
  intros m Hm. reflexivity.
Defined.

Lemma sample_detects_mismatch_witness :
  exists md components mix,
    four_way = Ok md /\
    Independent.__init__ (unit_gaussians [3; 4; 2]%nat) 1 = Ok components /\
    MixtureSameFamily.__init__ md components = Ok mix /\
    MixtureSameFamily.sample mix [10%nat] = Err RuntimeError.
Proof.
  evar (md : OneHotCategorical.t).
  assert (Hmd : four_way = Ok md) by (unfold md; reflexivity).
  set (components := Independent.mk (unit_gaussians [3; 4; 2]%nat) 1).
  set (mix := MixtureSameFamily.mk md components [3; 4]%nat [2%nat]).
  exists md, components, mix.
  split; [exact Hmd|]. split; [reflexivity|]. split; [reflexivity|].
  eapply (sample_detects_mismatch mix [10%nat] [10; 3]%nat [10; 3; 4]%nat 4 2);
    [reflexivity | reflexivity | reflexivity | reflexivity
     | discriminate | discriminate | discriminate].
Defined.

Lemma gaussian_mixture_log_prob_witness :
  exists md mix t,
    equal_weights = Ok md /\
    MixtureSameFamily.__init__ md (unit_gaussians [1; 1; 2]%nat) = Ok mix /\
    MixtureSameFamily.log_prob mix (zeros [1; 1; 1]%nat) = Ok t /\
    shape t = [1; 1; 1]%nat.
Proof.
  evar (md : OneHotCategorical.t).
  assert (Hmd : equal_weights = Ok md) by (unfold md; reflexivity).
  destruct (gaussian_mixture_log_prob md (unit_gaussians [1; 1; 2]%nat)
                                      (zeros [1; 1; 1]%nat) 1 1 1 2)
    as (mix & t & Hmix & Ht & Hts & _).
  - split; reflexivity.
  - intros idx _. simpl. lra.
  - reflexivity.
  - lia.
  - reflexivity.
  - reflexivity.
  - exists md, mix, t. split; [exact Hmd|]. split; [exact Hmix|].
    split; [exact Ht | exact Hts].
Defined.

End Examples.

End MixtureLaws.
